(** * Human Body Systems Viewer: the launcher and the 3D heart viewer

    A shallow embedding of [visualization.py] (mesh discovery, palette,
    material preset, opacity slider), of [gui.py] (the launcher, its
    buttons and the rounded border polyline) and of
    [Systems/Cardiac_System.py] (a detail window), with the properties the
    specification states about them. *)

From Stdlib Require Import Ascii QArith Reals Lra.
From stdpp Require Import gmap strings list sorting lexico pretty.

Local Open Scope string_scope.
Local Open Scope list_scope.
Local Open Scope nat_scope.

(** ** Strings and paths as Python orders them *)

(** [str.__lt__]: code point order, which on UTF-8 byte strings is the
    byte-wise lexicographic order. *)
#[global] Instance string_lexico : Lexico string :=
  λ s t, String.ltb s t = true.

Lemma string_ltb_le (s t : string) :
  String.ltb s t = true ↔ String.le s t ∧ s ≠ t.
Proof.
  unfold String.le, String.ltb, String.leb.
  destruct (String.compare s t) eqn:Hc; split; try done.
  - apply String.compare_eq_iff in Hc. by intros [_ ?].
  - intros _. split; [done|]. intros ->.
    pose proof (String.compare_antisym t t) as Ha.
    rewrite Hc in Ha. done.
  - by intros [? _].
Qed.

#[global] Instance string_lexico_po : StrictOrder (@lexico string _).
Proof.
  split.
  - intros s Hs. apply string_ltb_le in Hs as [_ ?]. done.
  - intros s t u [Hst Hne]%string_ltb_le [Htu _]%string_ltb_le.
    apply string_ltb_le. split; [by etrans|].
    intros ->. apply Hne. by apply (anti_symm String.le).
Qed.

#[global] Instance string_lexico_trichotomy : TrichotomyT (@lexico string _).
Proof.
  red; refine (λ s t,
    match String.compare s t as c return String.compare s t = c → _ with
    | Lt => λ H, inleft (left _)
    | Eq => λ H, inleft (right (String.compare_eq_iff s t H))
    | Gt => λ H, inright _
    end eq_refl); unfold lexico, string_lexico, String.ltb.
  - by rewrite H.
  - by rewrite String.compare_antisym, H.
Defined.

(** A [pathlib.Path] is kept as its list of parts; [Path.__lt__] compares
    the lists of parts (the case-sensitive flavour). *)
Abbreviation Path := (list string).

(** [Path.name]: the final component. *)
Definition name (p : Path) : string := List.last p "".

(** [Path.__truediv__] with a single component. *)
Definition joinpath (folder : Path) (n : string) : Path := folder ++ [n].

(** ** Shell-style matching of one path component

    [*] matches any run of characters, [?] a single one, every other
    character itself.  Bracket classes are left out: the only pattern the
    program uses is ["*.obj"]. *)
Fixpoint fnmatch_chars (pat : list ascii) : list ascii → bool :=
  match pat with
  | [] => λ s, match s with [] => true | _ => false end
  | c :: pat' =>
      if Ascii.eqb c "*" then
        fix star (s : list ascii) : bool :=
          fnmatch_chars pat' s ||
          match s with [] => false | _ :: s' => star s' end
      else if Ascii.eqb c "?" then
        λ s, match s with [] => false | _ :: s' => fnmatch_chars pat' s' end
      else
        λ s, match s with
             | [] => false
             | d :: s' => Ascii.eqb c d && fnmatch_chars pat' s'
             end
  end.

Definition fnmatch (pattern n : string) : bool :=
  fnmatch_chars (String.list_ascii_of_string pattern)
                (String.list_ascii_of_string n).

(** ** [sorted]: a stable sort that only ever asks [y < x] *)
Section sorted.
Context {A : Type} (lt : relation A) `{!RelDecision lt}.

Fixpoint insort (x : A) (l : list A) : list A :=
  match l with
  | [] => [x]
  | y :: l' => if decide (lt y x) then y :: insort x l' else x :: l
  end.

Definition sorted (l : list A) : list A := foldr insort [] l.

(** "not after": the relation adjacent elements of a sorted list are in. *)
Definition not_after (a b : A) : Prop := ¬ lt b a.
End sorted.

(** ** The file system seen by [pathlib] *)
Inductive node :=
  | File
  | Dir (entries : list string).

(** [entries] is in the order the operating system enumerates the
    directory, which nothing fixes. *)
Definition filesystem := gmap Path node.

Definition exists_ (fs : gmap Path node) (p : Path) : bool :=
  bool_decide (is_Some (fs !! p)).

(** [Path.glob] with a pattern of one component: the children whose name
    matches, in enumeration order; nothing below a non-directory. *)
Definition glob (fs : gmap Path node) (folder : Path) (pattern : string)
  : list Path :=
  match fs !! folder with
  | Some (Dir entries) =>
      joinpath folder <$> filter (λ n, fnmatch pattern n = true) entries
  | _ => []
  end.

(** ** Console output, exceptions and [sys.exit] *)
Inductive outcome (A : Type) :=
  | Return (a : A)
  | SysExit (code : Z)
  | Raise (e : string).
Arguments Return {A} a.
Arguments SysExit {A} code.
Arguments Raise {A} e.

(** A computation over a state [St] that returns, leaves the process
    ([SystemExit], which [except Exception] does not catch) or raises an
    [Exception] carrying its text. *)
Definition IO (St A : Type) : Type := St → outcome A * St.

Definition ret {St A} (a : A) : IO St A := λ s, (Return a, s).
Definition bind {St A B} (m : IO St A) (k : A → IO St B) : IO St B :=
  λ s, match m s with
       | (Return a, s') => k a s'
       | (SysExit c, s') => (SysExit c, s')
       | (Raise e, s') => (Raise e, s')
       end.
#[global] Instance IO_ret {St} : MRet (IO St) := @ret St.
#[global] Instance IO_bind {St} : MBind (IO St) := λ A B k m, bind m k.

Definition sys_exit {St A} (code : Z) : IO St A := λ s, (SysExit code, s).
Definition raise {St A} (e : string) : IO St A := λ s, (Raise e, s).
Definition modify {St} (f : St → St) : IO St unit := λ s, (Return tt, f s).
Definition gets {St A} (f : St → A) : IO St A := λ s, (Return (f s), s).

(** [try: body except Exception as e: handler(e)] *)
Definition try_except {St A} (body : IO St A) (handler : string → IO St A)
  : IO St A :=
  λ s, match body s with
       | (Raise e, s') => handler e s'
       | r => r
       end.

(** A function of a library that either raises or returns. *)
Definition call {St A} (r : string + A) : IO St A :=
  match r with
  | inl e => raise e
  | inr a => mret a
  end.

(** [d[k]] on a dict and [l[i]] on a list. *)
Definition getitem {St V} (d : gmap string V) (k : string) : IO St V :=
  match d !! k with
  | Some v => mret v
  | None => raise ("KeyError: '" +:+ k +:+ "'")
  end.
Definition index {St A} (l : list A) (i : nat) : IO St A :=
  match l !! i with
  | Some x => mret x
  | None => raise "IndexError: list index out of range"
  end.

(** States that have a console to [print] on. *)
Class Console (St : Type) := put_line : string → St → St.
#[global] Instance list_console : Console (list string) :=
  λ s out, out ++ [s].

Definition print `{Console St} (s : string) : IO St unit := modify (put_line s).

Fixpoint for_each {St A} (l : list A) (body : A → IO St unit) : IO St unit :=
  match l with
  | [] => mret tt
  | x :: l' => body x;; for_each l' body
  end.

(** ['=' * n] *)
Fixpoint str_repeat (c : ascii) (n : nat) : string :=
  match n with
  | O => ""
  | S n' => String c (str_repeat c n')
  end.

Definition nl : string := String "010" "".
Definition rule : string := str_repeat "=" 60.

(** The format [{idx:2d}]: right-aligned in a field of width two. *)
Definition fmt_2d (n : nat) : string :=
  if decide (n < 10) then " " +:+ pretty n else pretty n.

(** [enumerate(l, start)] *)
Definition enumerate {A} (start : nat) (l : list A) : list (nat * A) :=
  imap (λ i x, (start + i, x)) l.

(** ** visualization.py: configuration *)
Definition color : Type := Q * Q * Q.

Definition OBJ_FOLDER : string :=
  "C:\Users\Admin\Desktop\Anatomy tasks\Task 3\3D Data\Heart".

Definition HEART_COLORS : gmap string (list color) :=
  list_to_map [
    ("muscle_tissue", [
        (0.85, 0.45, 0.45);
        (0.90, 0.50, 0.50);
        (0.88, 0.48, 0.48);
        (0.82, 0.42, 0.42)
      ]%Q);
    ("arterial", [
        (0.92, 0.35, 0.35);
        (0.88, 0.32, 0.32);
        (0.85, 0.30, 0.30)
      ]%Q);
    ("venous", [
        (0.60, 0.70, 0.85);
        (0.55, 0.65, 0.82);
        (0.50, 0.60, 0.80)
      ]%Q)
  ].

(** [l * n] on lists *)
Definition list_mul {A} (l : list A) (n : nat) : list A :=
  mjoin (replicate n l).

Definition ALL_COLORS : list color :=
  list_mul (HEART_COLORS !!! "muscle_tissue") 2 ++
  (HEART_COLORS !!! "arterial") ++
  (HEART_COLORS !!! "venous").

Definition BACKGROUND_COLOR : color := (0.18, 0.18, 0.18)%Q.

Definition DEFAULT_OPACITY : Q := 1.0.

Definition LIGHTING_CONFIG : gmap string Q :=
  list_to_map [
    ("ambient", 0.35);
    ("diffuse", 0.65);
    ("specular", 0.15);
    ("specular_power", 8)
  ]%Q.

Section load.
Context `{Console St}.
(** [Path(folder_path)]: how a path string splits into parts. *)
Variable to_path : string → Path.

Definition load_obj_files (fs : gmap Path node) (folder_path : string)
  : IO St (list Path) :=
  let folder := to_path folder_path in
  (if negb (exists_ fs folder) then
     print ("Error: Folder '" +:+ folder_path +:+ "' does not exist!");;
     print "Please create the folder and place your .obj files inside.";;
     sys_exit 1
   else mret tt);;
  let obj_files := sorted lexico (glob fs folder "*.obj") in
  (if bool_decide (obj_files = []) then
     print ("Error: No .obj files found in '" +:+ folder_path +:+ "'!");;
     sys_exit 1
   else mret tt);;
  print (nl +:+ rule);;
  print ("Found " +:+ pretty (length obj_files) +:+ " .obj files:");;
  print rule;;
  for_each (enumerate 1 obj_files)
    (λ '(idx, obj_file),
       print ("  " +:+ fmt_2d idx +:+ ". " +:+ name obj_file));;
  print (rule +:+ nl);;
  mret obj_files.
End load.

(** ** [pathlib] by flavour

    [Path(...)] makes a [PosixPath] or a [WindowsPath], after the platform.
    The two differ in how [glob] matches a name and in how two paths
    compare; [glob], [fnmatch] and [lexico] above are those of
    [PosixPath].  [OBJ_FOLDER] is a drive path: the script is written for
    Windows.  What [fs] holds under a path is what the operating system
    answers for it, however it resolves names. *)
Inductive Flavour := Posix | Windows.

Class Pathlib := {
  flavour : Flavour;
  (** [str.lower] *)
  str_lower : string → string
}.

(** A capital letter of ASCII to its small letter. *)
Definition ascii_lower (c : ascii) : ascii :=
  let n := Ascii.N_of_ascii c in
  if ((65 <=? n) && (n <=? 90))%N then Ascii.ascii_of_N (n + 32) else c.

Fixpoint lower_ascii (s : string) : string :=
  match s with
  | EmptyString => EmptyString
  | String c s' => String (ascii_lower c) (lower_ascii s')
  end.

Section pathlib.
Context `{Pathlib}.

(** [flavour.casefold] *)
Definition casefold (s : string) : string :=
  match flavour with
  | Posix => s
  | Windows => str_lower s
  end.

(** [Path.__lt__]: the lists of case-folded parts are compared. *)
Definition path_lt (p q : Path) : Prop :=
  lexico (casefold <$> p) (casefold <$> q).

#[global] Instance path_lt_dec : RelDecision path_lt.
Proof. intros p q. unfold path_lt. apply _. Defined.

(** [flavour.compile_pattern(pattern)]: the pattern is matched as it is,
    or with [re.IGNORECASE], under which a character matches a letter of
    the pattern when their lower cases agree.  For the letters of
    ["*.obj"] only the capital and the small ASCII letter do, so folding
    ASCII letters decides the match; a pattern with [i], [k] or [s] would
    need more. *)
Definition compile_pattern (pattern n : string) : bool :=
  match flavour with
  | Posix => fnmatch pattern n
  | Windows => fnmatch (lower_ascii pattern) (lower_ascii n)
  end.

(** [Path.glob] with a pattern of one component: the entries of the
    directory whose name matches, files and directories alike, in
    enumeration order; nothing below what is not a directory. *)
Definition glob_on (fs : gmap Path node) (folder : Path) (pattern : string)
  : list Path :=
  match fs !! folder with
  | Some (Dir entries) =>
      joinpath folder <$> filter (λ n, compile_pattern pattern n = true) entries
  | _ => []
  end.

Context `{Console St}.
Variable to_path : string → Path.

(** [load_obj_files] with the paths of the platform's flavour. *)
Definition load_obj_files_on (fs : gmap Path node) (folder_path : string)
  : IO St (list Path) :=
  let folder := to_path folder_path in
  (if negb (exists_ fs folder) then
     print ("Error: Folder '" +:+ folder_path +:+ "' does not exist!");;
     print "Please create the folder and place your .obj files inside.";;
     sys_exit 1
   else mret tt);;
  let obj_files := sorted path_lt (glob_on fs folder "*.obj") in
  (if bool_decide (obj_files = []) then
     print ("Error: No .obj files found in '" +:+ folder_path +:+ "'!");;
     sys_exit 1
   else mret tt);;
  print (nl +:+ rule);;
  print ("Found " +:+ pretty (length obj_files) +:+ " .obj files:");;
  print rule;;
  for_each (enumerate 1 obj_files)
    (λ '(idx, obj_file),
       print ("  " +:+ fmt_2d idx +:+ ". " +:+ name obj_file));;
  print (rule +:+ nl);;
  mret obj_files.
End pathlib.

(** ** visualization.py: the scene

    What the program touches of the rendering library: the material of an
    actor ([vtkProperty]), meshes as opaque values, and the functions that
    read and prepare them. *)
Inductive Interpolation := Flat | Gouraud | Phong.

Record Property := {
  color_ : color;
  ambient : Q;
  diffuse : Q;
  specular : Q;
  specular_power : Q;
  interpolation : Interpolation;
  opacity : Q;
  edge_visibility : bool
}.

Definition SetColor (c : color) (p : Property) : Property :=
  {| color_ := c; ambient := ambient p; diffuse := diffuse p;
     specular := specular p; specular_power := specular_power p;
     interpolation := interpolation p; opacity := opacity p;
     edge_visibility := edge_visibility p |}.
Definition SetAmbient (x : Q) (p : Property) : Property :=
  {| color_ := color_ p; ambient := x; diffuse := diffuse p;
     specular := specular p; specular_power := specular_power p;
     interpolation := interpolation p; opacity := opacity p;
     edge_visibility := edge_visibility p |}.
Definition SetDiffuse (x : Q) (p : Property) : Property :=
  {| color_ := color_ p; ambient := ambient p; diffuse := x;
     specular := specular p; specular_power := specular_power p;
     interpolation := interpolation p; opacity := opacity p;
     edge_visibility := edge_visibility p |}.
Definition SetSpecular (x : Q) (p : Property) : Property :=
  {| color_ := color_ p; ambient := ambient p; diffuse := diffuse p;
     specular := x; specular_power := specular_power p;
     interpolation := interpolation p; opacity := opacity p;
     edge_visibility := edge_visibility p |}.
Definition SetSpecularPower (x : Q) (p : Property) : Property :=
  {| color_ := color_ p; ambient := ambient p; diffuse := diffuse p;
     specular := specular p; specular_power := x;
     interpolation := interpolation p; opacity := opacity p;
     edge_visibility := edge_visibility p |}.
Definition SetInterpolation (i : Interpolation) (p : Property) : Property :=
  {| color_ := color_ p; ambient := ambient p; diffuse := diffuse p;
     specular := specular p; specular_power := specular_power p;
     interpolation := i; opacity := opacity p;
     edge_visibility := edge_visibility p |}.
Definition SetInterpolationToPhong : Property → Property :=
  SetInterpolation Phong.
Definition SetOpacity (x : Q) (p : Property) : Property :=
  {| color_ := color_ p; ambient := ambient p; diffuse := diffuse p;
     specular := specular p; specular_power := specular_power p;
     interpolation := interpolation p; opacity := x;
     edge_visibility := edge_visibility p |}.
Definition SetEdgeVisibility (b : bool) (p : Property) : Property :=
  {| color_ := color_ p; ambient := ambient p; diffuse := diffuse p;
     specular := specular p; specular_power := specular_power p;
     interpolation := interpolation p; opacity := opacity p;
     edge_visibility := b |}.

(** The rendering library, as far as the program calls it. *)
Class PyVista := {
  Mesh : Type;
  (** [pv.read(str(obj_file))] *)
  pv_read : Path → string + Mesh;
  (** [mesh.compute_normals(...)] with the keyword arguments of the call *)
  compute_normals : Mesh → string + Mesh;
  (** what [plotter.add_mesh] refuses to plot, and why *)
  add_mesh_error : Mesh → option string;
  (** the material a new actor starts from (the plotting theme) *)
  theme_property : Property;
  (** [obj_file.stem] *)
  stem : Path → string
}.

(** A slider widget: the callback it was given, its range and value. *)
Record Slider := {
  slider_callback : Q → list Property → list Property;
  slider_rng : Q * Q;
  slider_value : Q;
  slider_title : string
}.

(** The state the viewer script works on.  An actor is a handle: its
    position in [props], where its [vtkProperty] lives, so that the
    plotter's scene and the list [actors] refer to the same objects.  The
    scene is keyed by actor name, as the plotter keeps it. *)
Record Viewer `{PyVista} := {
  console : list string;
  props : list Property;
  background : option color;
  window_size : list Z;
  scene : gmap string nat;
  slider_widgets : list Slider;
  actors : list nat;
  meshes : list Mesh
}.

Section viewer.
Context `{PyVista}.

Definition set_console (x : list string) (v : Viewer) : Viewer :=
  {| console := x; props := props v; background := background v;
     window_size := window_size v; scene := scene v;
     slider_widgets := slider_widgets v; actors := actors v;
     meshes := meshes v |}.
Definition set_props (x : list Property) (v : Viewer) : Viewer :=
  {| console := console v; props := x; background := background v;
     window_size := window_size v; scene := scene v;
     slider_widgets := slider_widgets v; actors := actors v;
     meshes := meshes v |}.
Definition set_background (x : color) (v : Viewer) : Viewer :=
  {| console := console v; props := props v; background := Some x;
     window_size := window_size v; scene := scene v;
     slider_widgets := slider_widgets v; actors := actors v;
     meshes := meshes v |}.
Definition set_window_size (x : list Z) (v : Viewer) : Viewer :=
  {| console := console v; props := props v; background := background v;
     window_size := x; scene := scene v;
     slider_widgets := slider_widgets v; actors := actors v;
     meshes := meshes v |}.
Definition set_scene (x : gmap string nat) (v : Viewer) : Viewer :=
  {| console := console v; props := props v; background := background v;
     window_size := window_size v; scene := x;
     slider_widgets := slider_widgets v; actors := actors v;
     meshes := meshes v |}.
Definition set_slider_widgets (x : list Slider) (v : Viewer) : Viewer :=
  {| console := console v; props := props v; background := background v;
     window_size := window_size v; scene := scene v;
     slider_widgets := x; actors := actors v; meshes := meshes v |}.
Definition set_actors (x : list nat) (v : Viewer) : Viewer :=
  {| console := console v; props := props v; background := background v;
     window_size := window_size v; scene := scene v;
     slider_widgets := slider_widgets v; actors := x;
     meshes := meshes v |}.
Definition set_meshes (x : list Mesh) (v : Viewer) : Viewer :=
  {| console := console v; props := props v; background := background v;
     window_size := window_size v; scene := scene v;
     slider_widgets := slider_widgets v; actors := actors v;
     meshes := x |}.

#[global] Instance viewer_console : Console Viewer :=
  λ s v, set_console (console v ++ [s]) v.

(** [pv.Plotter()]: a plotter with nothing in it. *)
Definition new_plotter (v : Viewer) : Viewer :=
  {| console := console v; props := props v; background := None;
     window_size := []; scene := ∅; slider_widgets := [];
     actors := actors v; meshes := meshes v |}.

(** [actor.GetProperty().method(...)] *)
Definition on_property (actor : nat) (f : Property → Property)
  : IO Viewer unit :=
  modify (λ v, set_props (alter f actor (props v)) v).

Definition apply_realistic_material (actor : nat) (c : color)
  : IO Viewer unit :=
  on_property actor (SetColor c);;
  a ← getitem LIGHTING_CONFIG "ambient";
  on_property actor (SetAmbient a);;
  d ← getitem LIGHTING_CONFIG "diffuse";
  on_property actor (SetDiffuse d);;
  s ← getitem LIGHTING_CONFIG "specular";
  on_property actor (SetSpecular s);;
  sp ← getitem LIGHTING_CONFIG "specular_power";
  on_property actor (SetSpecularPower sp);;
  on_property actor SetInterpolationToPhong;;
  on_property actor (SetOpacity DEFAULT_OPACITY).

(** [plotter.add_mesh(mesh, color=, smooth_shading=, show_edges=, name=)]:
    a new actor with the theme's material, the given colour and the
    shading asked for, entered in the scene under [name], where it
    replaces an actor of that name. *)
Definition add_mesh (mesh : Mesh) (c : color) (smooth_shading : bool)
    (show_edges : bool) (nm : string) : IO Viewer nat :=
  match add_mesh_error mesh with
  | Some e => raise e
  | None =>
      actor ← gets (λ v, length (props v));
      let p := SetEdgeVisibility show_edges
                 (SetInterpolation (if smooth_shading then Phong else Flat)
                    (SetColor c theme_property)) in
      modify (λ v, set_scene (<[nm := actor]> (scene v))
                     (set_props (props v ++ [p]) v));;
      mret actor
  end.

(** The body of the [try] in the loading loop. *)
Definition try_load (idx : nat) (obj_file : Path) : IO Viewer unit :=
  mesh ← call (pv_read obj_file);
  modify (λ v, set_meshes (meshes v ++ [mesh]) v);;
  mesh ← call (compute_normals mesh);
  c ← index ALL_COLORS (idx `mod` length ALL_COLORS);
  actor ← add_mesh mesh c true false (stem obj_file);
  apply_realistic_material actor c;;
  modify (λ v, set_actors (actors v ++ [actor]) v);;
  print ("  ✓ Loaded: " +:+ name obj_file).

Definition load_one (idx : nat) (obj_file : Path) : IO Viewer unit :=
  try_except (try_load idx obj_file)
    (λ e, print ("  ✗ Warning: Could not load " +:+ name obj_file
                 +:+ ": " +:+ e)).

(** The callback of the opacity slider; [actors] is the list the
    enclosing function built. *)
Definition update_opacity (actors : list nat) (value : Q)
    (props : list Property) : list Property :=
  foldl (λ ps actor, alter (SetOpacity value) actor ps) props actors.

(** [plotter.add_slider_widget(callback, rng, value=, title=, ...)] *)
Definition add_slider_widget
    (callback : Q → list Property → list Property) (rng : Q * Q)
    (value : Q) (title : string) : IO Viewer unit :=
  modify (λ v, set_slider_widgets
                 (slider_widgets v ++
                  [{| slider_callback := callback; slider_rng := rng;
                      slider_value := value; slider_title := title |}])
                 v).

(** Lights, anti-aliasing, ambient occlusion, the texts, the camera and
    the slider's colours are set after the meshes are loaded and read
    none of the state below; they are not represented. *)
Definition create_realistic_heart_viewer (obj_files : list Path)
  : IO Viewer unit :=
  modify new_plotter;;
  modify (set_background BACKGROUND_COLOR);;
  modify (set_window_size [1920; 1080]%Z);;
  modify (set_actors []);;
  modify (set_meshes []);;
  print "Loading and rendering heart model...";;
  print rule;;
  for_each (enumerate 0 obj_files) (λ '(idx, obj_file), load_one idx obj_file);;
  print rule;;
  acts ← gets actors;
  (if bool_decide (acts = []) then
     print "Error: No meshes were successfully loaded!";;
     sys_exit 1
   else mret tt);;
  print (nl +:+ "✓ Successfully loaded " +:+ pretty (length acts)
         +:+ " heart components" +:+ nl);;
  add_slider_widget (update_opacity acts) (0.1, 1.0)%Q DEFAULT_OPACITY
    "Opacity".

(** The slider widget keeps its value inside its range, whatever the
    pointer does, and hands it to the callback. *)
Definition clamp (rng : Q * Q) (x : Q) : Q :=
  if Qle_bool x (fst rng) then fst rng
  else if Qle_bool (snd rng) x then snd rng
  else x.

Definition slide_one (raw : Q) (s : Slider) (ps : list Property)
  : Slider * list Property :=
  let value := clamp (slider_rng s) raw in
  ({| slider_callback := slider_callback s; slider_rng := slider_rng s;
      slider_value := value; slider_title := slider_title s |},
   slider_callback s value ps).

(** The user drags slider number [i] towards [raw]. *)
Definition slide (i : nat) (raw : Q) (v : Viewer) : Viewer :=
  match slider_widgets v !! i with
  | None => v
  | Some s =>
      let '(s', ps) := slide_one raw s (props v) in
      set_props ps (set_slider_widgets (<[i := s']> (slider_widgets v)) v)
  end.

Context `{Pathlib}.
Variable to_path : string → Path.
(** [plotter.show(full_screen=True, auto_close=False,
    interactive_update=True)], a call into the library. *)
Variable show : IO Viewer unit.

(** [main]: the banner, the list of files, the viewer built from it, the
    window. *)
Definition main (fs : gmap Path node) : IO Viewer unit :=
  print (nl +:+ rule);;
  print "  REALISTIC 3D HEART MODEL VIEWER";;
  print rule;;
  obj_files ← load_obj_files_on to_path fs OBJ_FOLDER;
  create_realistic_heart_viewer obj_files;;
  print (nl +:+ rule);;
  print "Opening viewer in fullscreen mode...";;
  print (rule +:+ nl);;
  show;;
  print (nl +:+ rule);;
  print "Viewer closed. Thank you for using Heart Viewer!";;
  print (rule +:+ nl).
End viewer.

(** ** gui.py: the rounded border of a button

    [math.cos] and [math.sin] are taken as the real functions; canvas
    coordinates are real numbers, with [y] growing downwards. *)

(** [range(start, stop, step)] *)
Definition range (start stop step : Z) : list Z :=
  if (0 <? step)%Z then
    (λ k, start + Z.of_nat k * step)%Z <$>
      seq 0 (Z.to_nat ((stop - start + step - 1) / step))
  else if (step <? 0)%Z then
    (λ k, start + Z.of_nat k * step)%Z <$>
      seq 0 (Z.to_nat ((start - stop - step - 1) / - step))
  else [].

(** [math.radians] *)
Definition radians (angle : Z) : R := (IZR angle * PI / 180)%R.

Abbreviation point := (R * R)%type.

Section border.
Variables x1 y1 x2 y2 radius : Z.

Definition top_side : list point :=
  (λ i, (IZR i, IZR y1)) <$> range (x1 + radius) (x2 - radius + 1) 1.

Definition right_top_arc : list point :=
  (λ angle,
     (IZR (x2 - radius) + IZR radius * cos (radians angle),
      IZR (y1 + radius) - IZR radius * sin (radians angle))%R)
    <$> range 0 91 5.

Definition right_side : list point :=
  (λ i, (IZR x2, IZR i)) <$> range (y1 + radius) (y2 - radius + 1) 1.

Definition right_bottom_arc : list point :=
  (λ angle,
     (IZR (x2 - radius) + IZR radius * cos (radians angle),
      IZR (y2 - radius) - IZR radius * sin (radians angle))%R)
    <$> range 90 181 5.

Definition bottom_side : list point :=
  (λ i, (IZR i, IZR y2)) <$> range (x2 - radius) (x1 + radius - 1) (-1).

Definition left_bottom_arc : list point :=
  (λ angle,
     (IZR (x1 + radius) + IZR radius * cos (radians angle),
      IZR (y2 - radius) - IZR radius * sin (radians angle))%R)
    <$> range 180 271 5.

Definition left_side : list point :=
  (λ i, (IZR x1, IZR i)) <$> range (y2 - radius) (y1 + radius - 1) (-1).

Definition left_top_arc : list point :=
  (λ angle,
     (IZR (x1 + radius) + IZR radius * cos (radians angle),
      IZR (y1 + radius) - IZR radius * sin (radians angle))%R)
    <$> range 270 361 5.

(** The list [points] at the end of the eight loops. *)
Definition border_points : list point :=
  top_side ++ right_top_arc ++ right_side ++ right_bottom_arc ++
  bottom_side ++ left_bottom_arc ++ left_side ++ left_top_arc.
End border.

(** A line item of a canvas. *)
Record Line := {
  line_coords : list R;
  line_fill : string;
  line_width : Z;
  line_smooth : bool;
  line_tags : string
}.

Definition create_rounded_rect_border (x1 y1 x2 y2 radius : Z)
    (colour : string) (width : Z) : option Line :=
  let points := border_points x1 y1 x2 y2 radius in
  if decide (2 < length points) then
    let flat_points := points ≫= (λ p, [p.1; p.2]) in
    Some {| line_coords := flat_points; line_fill := colour;
            line_width := width; line_smooth := true;
            line_tags := "border" |}
  else None.

(** ** gui.py and Systems/: windows, buttons and key bindings *)
Inductive WindowClass :=
  | CardiacWindow
  | NervousWindow
  | MusculoskeletalWindow
  | DentalWindow.

(** The lambdas bound to keys and buttons, as data. *)
Inductive Callback :=
  | root_quit                                     (* lambda e: self.root.quit() *)
  | window_destroy (w : nat)                      (* lambda e: self.window.destroy() *)
  | open_system_of (system_name emoji : string).  (* lambda: self.open_system(..., ...) *)

(** A top-level window: the root ([tl_class = None]) or a detail window. *)
Record Toplevel := {
  tl_class : option WindowClass;
  tl_title : string;
  tl_bg : string;
  tl_state : string;
  tl_bindings : gmap string Callback
}.

Record ModernButton := {
  text : string;
  emoji : string;
  command : option Callback;
  bg_color : string;
  hover_color : string;
  active_color : string;
  current_color : string;
  border : option Line;
  grid_row : nat;
  grid_column : nat
}.

(** The interpreter's Tk state: the windows that exist, by widget number
    (the root is 0), the counter that numbers new ones, the buttons of the
    main menu and whether the event loop runs. *)
Record Tk := {
  toplevels : gmap nat Toplevel;
  next_id : nat;
  buttons : list ModernButton;
  running : bool
}.

Definition set_toplevels (x : gmap nat Toplevel) (tk : Tk) : Tk :=
  {| toplevels := x; next_id := next_id tk; buttons := buttons tk;
     running := running tk |}.
Definition set_next_id (x : nat) (tk : Tk) : Tk :=
  {| toplevels := toplevels tk; next_id := x; buttons := buttons tk;
     running := running tk |}.
Definition set_buttons (x : list ModernButton) (tk : Tk) : Tk :=
  {| toplevels := toplevels tk; next_id := next_id tk; buttons := x;
     running := running tk |}.
Definition set_running (x : bool) (tk : Tk) : Tk :=
  {| toplevels := toplevels tk; next_id := next_id tk; buttons := buttons tk;
     running := x |}.

Definition root : nat := 0.

(** [window.bind(sequence, callback)] *)
Definition bind_key (w : nat) (sequence : string) (cb : Callback) (tk : Tk)
  : Tk :=
  set_toplevels
    (alter (λ t, {| tl_class := tl_class t; tl_title := tl_title t;
                    tl_bg := tl_bg t; tl_state := tl_state t;
                    tl_bindings := <[sequence := cb]> (tl_bindings t) |})
       w (toplevels tk)) tk.

(** [tk.Toplevel(parent)] followed by [title], [configure(bg=)] and
    [state]: a new window under the next widget number. *)
Definition new_toplevel (cls : WindowClass) (title bg state : string)
    (tk : Tk) : nat * Tk :=
  let w := next_id tk in
  (w, set_next_id (S w)
        (set_toplevels
           (<[w := {| tl_class := Some cls; tl_title := title; tl_bg := bg;
                      tl_state := state; tl_bindings := ∅ |}]> (toplevels tk))
           tk)).

(** The constructor of a detail window, as [CardiacWindow.__init__] has it
    apart from the captions: create the window, then bind Escape to its
    own [destroy].  The dark title bar, the sidebar and the labels are
    decoration and are not represented. *)
Definition detail_window (cls : WindowClass) (title : string) (tk : Tk)
  : Tk :=
  let '(w, tk) := new_toplevel cls title "#2a2a2a" "zoomed" tk in
  bind_key w "<Escape>" (window_destroy w) tk.

Definition CardiacWindow_init (parent : nat) : Tk → Tk :=
  detail_window CardiacWindow "Cardiac System - Human Body Systems Viewer".

(** Modelled from the spec: the sources of [Systems/Nervous_System.py],
    [Systems/Musculoskeletal_System.py] and [Systems/Dental_System.py] are
    not available.  The spec has "four near-identical placeholder detail
    windows" in which "Escape key closes the active window", so each is
    the cardiac constructor with the captions of its own system. *)
Definition NervousWindow_init (parent : nat) : Tk → Tk :=
  detail_window NervousWindow "Nervous System - Human Body Systems Viewer".
Definition MusculoskeletalWindow_init (parent : nat) : Tk → Tk :=
  detail_window MusculoskeletalWindow
    "Musculoskeletal System - Human Body Systems Viewer".
Definition DentalWindow_init (parent : nat) : Tk → Tk :=
  detail_window DentalWindow "Dental System - Human Body Systems Viewer".

(** [MedicalSystemsGUI.open_system] *)
Definition open_system (system_name emoji : string) (tk : Tk) : Tk :=
  if String.eqb system_name "Cardiac System" then
    CardiacWindow_init root tk
  else if String.eqb system_name "Nervous System" then
    NervousWindow_init root tk
  else if String.eqb system_name "Musculoskeletal System" then
    MusculoskeletalWindow_init root tk
  else if String.eqb system_name "Dental System" then
    DentalWindow_init root tk
  else tk.

(** Running a callback. [quit] stops the event loop, after which [main]
    returns and the program ends; [destroy] removes one window. *)
Definition run_callback (cb : Callback) (tk : Tk) : Tk :=
  match cb with
  | root_quit => set_running false tk
  | window_destroy w => set_toplevels (delete w (toplevels tk)) tk
  | open_system_of system_name emoji => open_system system_name emoji tk
  end.

(** A key pressed while window [w] is the active one: Tk runs the binding
    of that window for the key, if it has one.  A binding on the root is
    not inherited by other top-level windows. *)
Definition key_press (w : nat) (sequence : string) (tk : Tk) : Tk :=
  match toplevels tk !! w with
  | Some t =>
      match tl_bindings t !! sequence with
      | Some cb => run_callback cb tk
      | None => tk
      end
  | None => tk
  end.

(** The entries of [systems] in [create_widgets]. *)
Record System := {
  sys_text : string;
  sys_emoji : string;
  sys_command : Callback
}.

Definition systems : list System := [
  {| sys_text := "Cardiac System"; sys_emoji := "‚ù§Ô∏è";
     sys_command := open_system_of "Cardiac System" "‚ù§Ô∏è" |};
  {| sys_text := "Nervous System"; sys_emoji := "üß†";
     sys_command := open_system_of "Nervous System" "üß†" |};
  {| sys_text := "Musculoskeletal System"; sys_emoji := "üí™";
     sys_command := open_system_of "Musculoskeletal System" "üí™" |};
  {| sys_text := "Dental System"; sys_emoji := "ü¶∑";
     sys_command := open_system_of "Dental System" "ü¶∑" |}
].

(** [ModernButton.__init__]; of the canvas items only the border line is
    kept. *)
Definition ModernButton_init (txt emo : string) (cmd : option Callback)
  : ModernButton :=
  {| text := txt; emoji := emo; command := cmd;
     bg_color := "#2a2a2a"; hover_color := "#3a3a3a";
     active_color := "#4a4a4a"; current_color := "#2a2a2a";
     border := create_rounded_rect_border 10 10 440 190 24 "#404040" 1;
     grid_row := 0; grid_column := 0 |}.

(** [button.grid(row=, column=, ...)] *)
Definition grid (row col : nat) (b : ModernButton) : ModernButton :=
  {| text := text b; emoji := emoji b; command := command b;
     bg_color := bg_color b; hover_color := hover_color b;
     active_color := active_color b; current_color := current_color b;
     border := border b; grid_row := row; grid_column := col |}.

Definition update_color (c : string) (b : ModernButton) : ModernButton :=
  {| text := text b; emoji := emoji b; command := command b;
     bg_color := bg_color b; hover_color := hover_color b;
     active_color := active_color b; current_color := c;
     border := border b; grid_row := grid_row b;
     grid_column := grid_column b |}.

(** [create_widgets]: the header, the labels and the footer carry no
    behaviour; the loop over [systems] builds the buttons. *)
Definition create_widgets (tk : Tk) : Tk :=
  foldl (λ tk '(i, system),
           let row := i `div` 2 in
           let col := i `mod` 2 in
           let button := ModernButton_init (sys_text system)
                           (sys_emoji system) (Some (sys_command system)) in
           set_buttons (buttons tk ++ [grid row col button]) tk)
    tk (enumerate 0 systems).

(** [tk.Tk()] *)
Definition Tk_new : Tk :=
  {| toplevels := {[ root := {| tl_class := None; tl_title := "tk";
                                tl_bg := ""; tl_state := "normal";
                                tl_bindings := ∅ |} ]};
     next_id := 1; buttons := []; running := false |}.

Definition configure_root (title bg state : string) (tk : Tk) : Tk :=
  set_toplevels
    (alter (λ t, {| tl_class := tl_class t; tl_title := title; tl_bg := bg;
                    tl_state := state; tl_bindings := tl_bindings t |})
       root (toplevels tk)) tk.

(** [MedicalSystemsGUI.__init__] *)
Definition MedicalSystemsGUI_init (tk : Tk) : Tk :=
  let tk := configure_root "Human Body Systems Viewer" "#1a1a1a" "zoomed" tk in
  let tk := bind_key root "<Escape>" root_quit tk in
  create_widgets tk.

(** [main] of gui.py up to the moment the event loop runs. *)
Definition gui_main : Tk :=
  set_running true (MedicalSystemsGUI_init Tk_new).

(** [ModernButton.on_release] of button number [i]. *)
Definition on_release (i : nat) (tk : Tk) : Tk :=
  match buttons tk !! i with
  | None => tk
  | Some b =>
      let tk := set_buttons
                  (<[i := update_color (hover_color b) b]> (buttons tk)) tk in
      match command b with
      | Some cb => run_callback cb tk
      | None => tk
      end
  end.

(** [root.mainloop()]: events are handled one after the other for as long
    as the loop runs. *)
Inductive Event :=
  | ButtonRelease (button : nat)
  | KeyPress (w : nat) (sequence : string).

Definition handle (ev : Event) (tk : Tk) : Tk :=
  if running tk then
    match ev with
    | ButtonRelease i => on_release i tk
    | KeyPress w sequence => key_press w sequence tk
    end
  else tk.

Definition mainloop (events : list Event) (tk : Tk) : Tk :=
  foldl (λ tk ev, handle ev tk) tk events.

(** * Properties *)

(** ** Sorting *)
Section sorted_facts.
Context {A : Type} (lt : relation A) `{!RelDecision lt}.

Lemma insort_Permutation x l : insort lt x l ≡ₚ x :: l.
Proof.
  induction l as [|y l IH]; simpl; [done|].
  case_decide; [|done].
  rewrite IH. apply Permutation_swap.
Qed.

Lemma sorted_Permutation l : sorted lt l ≡ₚ l.
Proof.
  induction l as [|x l IH]; simpl; [done|].
  by rewrite insort_Permutation, IH.
Qed.

Context `{!StrictOrder lt}.

Lemma insort_HdRel a x l :
  not_after lt a x → HdRel (not_after lt) a l →
  HdRel (not_after lt) a (insort lt x l).
Proof.
  intros Hax Hl. destruct l as [|y l]; simpl; [by constructor|].
  case_decide; constructor; [by inv Hl|done].
Qed.

Lemma insort_Sorted x l :
  Sorted (not_after lt) l → Sorted (not_after lt) (insort lt x l).
Proof.
  induction 1 as [|y l Hl IH Hhd]; simpl.
  - by repeat constructor.
  - case_decide as Hyx.
    + constructor; [done|]. apply insort_HdRel; [|done].
      intros Hxy. by apply (irreflexivity lt x); trans y.
    + constructor; [by constructor|]. by constructor.
Qed.

Lemma sorted_Sorted l : Sorted (not_after lt) (sorted lt l).
Proof.
  induction l; simpl; [constructor|]. by apply insort_Sorted.
Qed.

Context `{!Trichotomy lt}.

#[local] Instance not_after_trans : Transitive (not_after lt).
Proof.
  intros a b c Hab Hbc Hca.
  destruct (trichotomy lt a b) as [?|[->|?]]; [|done..].
  apply Hbc. by trans a.
Qed.

#[local] Instance not_after_antisymm : AntiSymm (=) (not_after lt).
Proof.
  intros a b Hab Hba. by destruct (trichotomy lt a b) as [?|[?|?]].
Qed.

End sorted_facts.

(** ** Matching *)
Definition literal (pat : list ascii) : Prop :=
  Forall (λ c, c ≠ "*"%char ∧ c ≠ "?"%char) pat.

Lemma fnmatch_chars_literal pat s :
  literal pat → fnmatch_chars pat s = true ↔ s = pat.
Proof.
  intros Hpat. revert s. induction Hpat as [|c pat [Hs Hq] _ IH]; intros s.
  - by destruct s.
  - simpl. apply Ascii.eqb_neq in Hs, Hq. rewrite Hs, Hq.
    destruct s as [|d s]; [done|].
    rewrite andb_true_iff, Ascii.eqb_eq, IH.
    split; [by intros [-> ->] | by intros [= -> ->]].
Qed.

Lemma fnmatch_chars_star pat s :
  fnmatch_chars ("*"%char :: pat) s =
  fnmatch_chars pat s ||
  match s with [] => false | _ :: s' => fnmatch_chars ("*"%char :: pat) s' end.
Proof. by destruct s. Qed.

Lemma fnmatch_chars_star_literal pat s :
  literal pat →
  fnmatch_chars ("*"%char :: pat) s = true ↔ ∃ pre, s = pre ++ pat.
Proof.
  intros Hpat. induction s as [|d s IH]; rewrite fnmatch_chars_star,
    orb_true_iff, fnmatch_chars_literal by done.
  - split.
    + intros [->|?]; [by exists []|done].
    + intros [pre Hpre]. left. symmetry in Hpre.
      apply app_eq_nil in Hpre as [_ ?]. done.
  - rewrite IH. split.
    + intros [->|[pre ->]]; [by exists []|by exists (d :: pre)].
    + intros [[|c pre] Hpre]; simplify_eq/=; eauto.
Qed.

(** [n] ends with [suffix]. *)
Definition ends_with (suffix n : string) : Prop := ∃ s, n = s +:+ suffix.

Lemma list_ascii_of_string_app s t :
  String.list_ascii_of_string (s +:+ t) =
  String.list_ascii_of_string s ++ String.list_ascii_of_string t.
Proof. induction s; simpl; [done|]. by f_equal. Qed.

Lemma fnmatch_obj n : fnmatch "*.obj" n = true ↔ ends_with ".obj" n.
Proof.
  unfold fnmatch, ends_with.
  change (String.list_ascii_of_string "*.obj")
    with ("*"%char :: String.list_ascii_of_string ".obj").
  rewrite fnmatch_chars_star_literal
    by (repeat constructor; done).
  split.
  - intros [pre Hpre]. exists (String.string_of_list_ascii pre).
    rewrite <-(String.string_of_list_ascii_of_string n), Hpre.
    rewrite <-(String.list_ascii_of_string_of_list_ascii pre) at 1.
    rewrite <-list_ascii_of_string_app.
    by rewrite String.string_of_list_ascii_of_string.
  - intros [s ->]. exists (String.list_ascii_of_string s).
    apply list_ascii_of_string_app.
Qed.

(** ** Running prints *)
Definition put_lines `{Console St} (ls : list string) (st : St) : St :=
  foldl (λ st l, put_line l st) st ls.

Lemma for_each_print `{Console St} {A} (f : A → string) (body : A → IO St unit)
    (l : list A) (st : St) :
  (∀ x, body x = print (f x)) →
  for_each l body st = (Return tt, put_lines (f <$> l) st).
Proof.
  intros Hbody. revert st. induction l as [|x l IH]; intros st; [done|].
  simpl. unfold mbind, IO_bind, bind. rewrite Hbody. simpl. by rewrite IH.
Qed.

Lemma put_lines_app `{Console St} (l1 l2 : list string) (st : St) :
  put_lines (l1 ++ l2) st = put_lines l2 (put_lines l1 st).
Proof. apply foldl_app. Qed.

Lemma put_lines_list (ls out : list string) : put_lines ls out = out ++ ls.
Proof.
  revert out. induction ls as [|l ls IH]; intros out; simpl.
  - by rewrite app_nil_r.
  - rewrite IH. unfold put_line, list_console. by rewrite <-app_assoc.
Qed.

(** ** [load_obj_files] *)
Section load_facts.
Context `{Console St} (to_path : string → Path).

Definition missing_lines (folder_path : string) : list string :=
  ["Error: Folder '" +:+ folder_path +:+ "' does not exist!";
   "Please create the folder and place your .obj files inside."].

Definition empty_lines (folder_path : string) : list string :=
  ["Error: No .obj files found in '" +:+ folder_path +:+ "'!"].

Definition listing_lines (obj_files : list Path) : list string :=
  [nl +:+ rule;
   "Found " +:+ pretty (length obj_files) +:+ " .obj files:";
   rule] ++
  ((λ x : nat * Path, "  " +:+ fmt_2d x.1 +:+ ". " +:+ name x.2)
     <$> enumerate 1 obj_files) ++
  [rule +:+ nl].

(** The three ways [load_obj_files] can end. *)
Lemma load_obj_files_eq (fs : gmap Path node) (folder_path : string)
    (st : St) :
  load_obj_files to_path fs folder_path st =
  if negb (exists_ fs (to_path folder_path)) then
    (SysExit 1, put_lines (missing_lines folder_path) st)
  else
    let obj_files :=
      sorted lexico (glob fs (to_path folder_path) "*.obj") in
    if bool_decide (obj_files = []) then
      (SysExit 1, put_lines (empty_lines folder_path) st)
    else (Return obj_files, put_lines (listing_lines obj_files) st).
Proof.
  unfold load_obj_files.
  destruct (negb (exists_ fs (to_path folder_path))); [done|].
  simpl. unfold mbind, IO_bind, bind at 1. simpl.
  case_bool_decide; [done|].
  unfold bind; simpl.
  erewrite (for_each_print
    (λ x : nat * Path, "  " +:+ fmt_2d x.1 +:+ ". " +:+ name x.2));
    [|by intros []].
  unfold listing_lines. by rewrite !put_lines_app.
Qed.
End load_facts.

(** ** Paths and patterns by flavour *)
Section pathlib_facts.
Context `{Pathlib}.

#[global] Instance path_lt_po : StrictOrder path_lt.
Proof.
  split.
  - intros p Hp. unfold path_lt in Hp.
    by apply (irreflexivity (@lexico (list string) _)) in Hp.
  - intros p q r Hpq Hqr. unfold path_lt in *. by etrans.
Qed.

(** What ["*.obj"] matches: a name that ends in [.obj], in small letters
    or, on Windows, in any mix of small and capital ones. *)
Definition obj_name (n : string) : Prop :=
  match flavour with
  | Posix => ends_with ".obj" n
  | Windows => ends_with ".obj" (lower_ascii n)
  end.

Lemma compile_pattern_obj (n : string) :
  compile_pattern "*.obj" n = true ↔ obj_name n.
Proof.
  unfold compile_pattern, obj_name. destruct flavour; apply fnmatch_obj.
Qed.

Lemma elem_of_glob_on_obj fs folder entries (p : Path) :
  fs !! folder = Some (Dir entries) →
  p ∈ glob_on fs folder "*.obj" ↔
  ∃ n, n ∈ entries ∧ obj_name n ∧ p = joinpath folder n.
Proof.
  intros Hfs. unfold glob_on. rewrite Hfs, list_elem_of_fmap.
  setoid_rewrite list_elem_of_filter. setoid_rewrite compile_pattern_obj.
  split.
  - intros (n & -> & ? & ?). eauto.
  - intros (n & ? & ? & ->). eauto.
Qed.

Lemma sorted_path_lt_nil (l : list Path) : sorted path_lt l = [] ↔ l = [].
Proof.
  split; [|by intros ->]. intros Hs.
  apply Permutation_nil_r. rewrite <-Hs. symmetry. apply sorted_Permutation.
Qed.

Context `{Console St} (to_path : string → Path).

(** The three ways [load_obj_files] can end. *)
Lemma load_obj_files_on_eq (fs : gmap Path node) (folder_path : string)
    (st : St) :
  load_obj_files_on to_path fs folder_path st =
  if negb (exists_ fs (to_path folder_path)) then
    (SysExit 1, put_lines (missing_lines folder_path) st)
  else
    let obj_files :=
      sorted path_lt (glob_on fs (to_path folder_path) "*.obj") in
    if bool_decide (obj_files = []) then
      (SysExit 1, put_lines (empty_lines folder_path) st)
    else (Return obj_files, put_lines (listing_lines obj_files) st).
Proof.
  unfold load_obj_files_on.
  destruct (negb (exists_ fs (to_path folder_path))); [done|].
  simpl. unfold mbind, IO_bind, bind at 1. simpl.
  case_bool_decide; [done|].
  unfold bind; simpl.
  erewrite (for_each_print
    (λ x : nat * Path, "  " +:+ fmt_2d x.1 +:+ ". " +:+ name x.2));
    [|by intros []].
  unfold listing_lines. by rewrite !put_lines_app.
Qed.
End pathlib_facts.

(** On the case-sensitive flavour these are the definitions given first. *)
Section posix.
Context (lower : string → string).

Let posix : Pathlib := {| flavour := Posix; str_lower := lower |}.

Lemma path_lt_posix (p q : Path) : @path_lt posix p q ↔ lexico p q.
Proof.
  assert (∀ l : Path, @casefold posix <$> l = l) as Hid.
  { intros l. induction l as [|s l IH]; [done|].
    rewrite fmap_cons, IH. reflexivity. }
  unfold path_lt. by rewrite !Hid.
Qed.

Lemma sorted_path_lt_posix (l : list Path) :
  sorted (@path_lt posix) l = sorted lexico l.
Proof.
  induction l as [|p l IH]; [done|]. simpl. rewrite IH.
  generalize (sorted lexico l). clear. intros l.
  induction l as [|q l IH]; [done|]. simpl. rewrite IH.
  destruct (decide (@path_lt posix q p)) as [Hlt|Hlt],
    (decide (lexico q p)) as [Hlt'|Hlt']; try done.
  - destruct Hlt'. by apply path_lt_posix.
  - destruct Hlt. by apply path_lt_posix.
Qed.

Lemma load_obj_files_on_posix `{Console St} (to_path : string → Path)
    (fs : gmap Path node) (folder_path : string) (st : St) :
  @load_obj_files_on posix St _ to_path fs folder_path st =
  load_obj_files to_path fs folder_path st.
Proof.
  rewrite load_obj_files_on_eq, load_obj_files_eq.
  by rewrite sorted_path_lt_posix.
Qed.
End posix.

(** C4: when [load_obj_files] returns, the folder is a directory and the
    list returned holds exactly its entries whose name matches ["*.obj"]
    as the platform matches it, each once and as a path below the folder,
    whatever the entry is: a file, a directory or something else.  The list
    is in ascending path order, which on Windows compares the lower-cased
    parts; an entry with any other ending is not in it. *)
Theorem load_obj_files_sorted_entries `{Pathlib} `{Console St}
    (to_path : string → Path) (fs : gmap Path node) (folder_path : string)
    (st st' : St) (obj_files : list Path) :
  load_obj_files_on to_path fs folder_path st = (Return obj_files, st') →
  ∃ entries,
    fs !! to_path folder_path = Some (Dir entries) ∧
    (∀ p, p ∈ obj_files ↔
          ∃ n, n ∈ entries ∧ obj_name n ∧
               p = joinpath (to_path folder_path) n) ∧
    obj_files ≡ₚ
      joinpath (to_path folder_path) <$>
        filter (λ n, compile_pattern "*.obj" n = true) entries ∧
    Sorted (not_after path_lt) obj_files ∧
    (∀ n, n ∈ entries → ¬ obj_name n →
          joinpath (to_path folder_path) n ∉ obj_files).
Proof.
  rewrite load_obj_files_on_eq.
  destruct (negb _); [done|]. simpl.
  case_bool_decide as Hne; [done|]. intros [= <- _].
  destruct (fs !! to_path folder_path) as [[|entries]|] eqn:Hfs;
    try (unfold glob_on in Hne; by rewrite Hfs in Hne).
  exists entries. split; [done|].
  assert (∀ p,
    p ∈ sorted path_lt (glob_on fs (to_path folder_path) "*.obj") ↔
    ∃ n, n ∈ entries ∧ obj_name n ∧
         p = joinpath (to_path folder_path) n) as Hin.
  { intros p. rewrite sorted_Permutation. by apply elem_of_glob_on_obj. }
  split_and!.
  - done.
  - rewrite sorted_Permutation. unfold glob_on. by rewrite Hfs.
  - apply sorted_Sorted; apply _.
  - intros n _ Hn [n' (_ & Hn' & Heq)]%Hin.
    apply (inj (app _)) in Heq. by simplify_eq.
Qed.




(** ** The palette and the lighting preset *)
Lemma ALL_COLORS_eq :
  ALL_COLORS =
  [(0.85, 0.45, 0.45); (0.90, 0.50, 0.50); (0.88, 0.48, 0.48);
   (0.82, 0.42, 0.42);
   (0.85, 0.45, 0.45); (0.90, 0.50, 0.50); (0.88, 0.48, 0.48);
   (0.82, 0.42, 0.42);
   (0.92, 0.35, 0.35); (0.88, 0.32, 0.32); (0.85, 0.30, 0.30);
   (0.60, 0.70, 0.85); (0.55, 0.65, 0.82); (0.50, 0.60, 0.80)]%Q.
Proof. vm_compute. reflexivity. Qed.

Lemma ALL_COLORS_length : length ALL_COLORS = 14.
Proof. by rewrite ALL_COLORS_eq. Qed.

(** The colour the loop picks for index [idx]. *)
Definition palette (idx : nat) : color :=
  match ALL_COLORS !! (idx `mod` length ALL_COLORS) with
  | Some c => c
  | None => (0, 0, 0)%Q
  end.

Lemma palette_lookup idx :
  ALL_COLORS !! (idx `mod` length ALL_COLORS) = Some (palette idx).
Proof.
  unfold palette.
  assert (is_Some (ALL_COLORS !! (idx `mod` length ALL_COLORS))) as [c Hc].
  { apply lookup_lt_is_Some_2, Nat.mod_upper_bound.
    by rewrite ALL_COLORS_length. }
  by rewrite Hc.
Qed.

Lemma LIGHTING_CONFIG_ambient : LIGHTING_CONFIG !! "ambient" = Some 0.35%Q.
Proof. vm_compute. reflexivity. Qed.
Lemma LIGHTING_CONFIG_diffuse : LIGHTING_CONFIG !! "diffuse" = Some 0.65%Q.
Proof. vm_compute. reflexivity. Qed.
Lemma LIGHTING_CONFIG_specular : LIGHTING_CONFIG !! "specular" = Some 0.15%Q.
Proof. vm_compute. reflexivity. Qed.
Lemma LIGHTING_CONFIG_specular_power :
  LIGHTING_CONFIG !! "specular_power" = Some 8%Q.
Proof. vm_compute. reflexivity. Qed.

(** What [apply_realistic_material] leaves of a material: only the edge
    visibility. *)
Definition material (c : color) (p : Property) : Property :=
  {| color_ := c; ambient := 0.35; diffuse := 0.65; specular := 0.15;
     specular_power := 8; interpolation := Phong; opacity := 1.0;
     edge_visibility := edge_visibility p |}.

(** The lighting preset. *)
Definition has_preset (p : Property) : Prop :=
  ambient p = 0.35%Q ∧ diffuse p = 0.65%Q ∧ specular p = 0.15%Q ∧
  specular_power p = 8%Q ∧ interpolation p = Phong ∧ opacity p = 1.0%Q.

Ltac io :=
  unfold mbind, mret, IO_bind, IO_ret, bind, ret, print, modify, gets, call,
    raise, sys_exit, try_except; simpl.

Lemma enumerate_cons {A} (idx : nat) (x : A) (l : list A) :
  enumerate idx (x :: l) = (idx, x) :: enumerate (S idx) l.
Proof.
  unfold enumerate. simpl. rewrite Nat.add_0_r. f_equal.
  apply imap_ext. intros i y _. simpl. f_equal. lia.
Qed.

Section viewer_facts.
Context `{PyVista}.

Lemma apply_realistic_material_eq (actor : nat) (c : color) (v : Viewer) :
  apply_realistic_material actor c v =
  (Return tt, set_props (alter (material c) actor (props v)) v).
Proof.
  unfold apply_realistic_material, on_property, getitem.
  rewrite LIGHTING_CONFIG_ambient, LIGHTING_CONFIG_diffuse,
    LIGHTING_CONFIG_specular, LIGHTING_CONFIG_specular_power.
  io. by rewrite !list_alter_alter_eq.
Qed.

(** How far the body of the [try] gets on a file: the mesh that is
    plotted, or the text of the exception and the mesh that had been
    read by then. *)
Definition attempt (obj_file : Path) : string * list Mesh + Mesh :=
  match pv_read obj_file with
  | inl e => inl (e, [])
  | inr m =>
      match compute_normals m with
      | inl e => inl (e, [m])
      | inr m' =>
          match add_mesh_error m' with
          | Some e => inl (e, [m])
          | None => inr m
          end
      end
  end.

Definition preset (c : color) : Property :=
  material c (SetEdgeVisibility false theme_property).

(** The state after an iteration that loaded its file... *)
Definition loaded (idx : nat) (obj_file : Path) (m : Mesh) (v : Viewer)
  : Viewer :=
  {| console := console v ++ ["  ✓ Loaded: " +:+ name obj_file];
     props := props v ++ [preset (palette idx)];
     background := background v; window_size := window_size v;
     scene := <[stem obj_file := length (props v)]> (scene v);
     slider_widgets := slider_widgets v;
     actors := actors v ++ [length (props v)];
     meshes := meshes v ++ [m] |}.

(** ... and after one that could not. *)
Definition skipped (obj_file : Path) (e : string) (ms : list Mesh)
    (v : Viewer) : Viewer :=
  {| console := console v ++
       ["  ✗ Warning: Could not load " +:+ name obj_file +:+ ": " +:+ e];
     props := props v; background := background v;
     window_size := window_size v; scene := scene v;
     slider_widgets := slider_widgets v; actors := actors v;
     meshes := meshes v ++ ms |}.

Lemma load_one_eq (idx : nat) (obj_file : Path) (v : Viewer) :
  load_one idx obj_file v =
  (Return tt,
   match attempt obj_file with
   | inr m => loaded idx obj_file m v
   | inl (e, ms) => skipped obj_file e ms v
   end).
Proof.
  unfold load_one, try_load, attempt, index, add_mesh.
  rewrite palette_lookup.
  destruct (pv_read obj_file) as [e|m]; io.
  { unfold skipped. by rewrite app_nil_r. }
  destruct (compute_normals m) as [e|m']; io; [done|].
  destruct (add_mesh_error m') as [e|]; io; [done|].
  rewrite apply_realistic_material_eq. simpl.
  unfold loaded. f_equal. f_equal.
  rewrite <-(Nat.add_0_r (length (props v))), alter_app_r. done.
Qed.
End viewer_facts.

(** ** The loading loop *)
Section viewer_loop.
Context `{PyVista}.

Definition step (idx : nat) (obj_file : Path) (v : Viewer) : Viewer :=
  match attempt obj_file with
  | inr m => loaded idx obj_file m v
  | inl (e, ms) => skipped obj_file e ms v
  end.

Fixpoint load_loop (idx : nat) (obj_files : list Path) (v : Viewer)
  : Viewer :=
  match obj_files with
  | [] => v
  | obj_file :: rest => load_loop (S idx) rest (step idx obj_file v)
  end.

Lemma for_each_load_one (idx : nat) (obj_files : list Path) (v : Viewer) :
  for_each (enumerate idx obj_files)
    (λ '(idx, obj_file), load_one idx obj_file) v =
  (Return tt, load_loop idx obj_files v).
Proof.
  revert idx v. induction obj_files as [|f rest IH]; intros idx v; [done|].
  rewrite enumerate_cons. simpl.
  unfold mbind, IO_bind, bind. rewrite load_one_eq. apply IH.
Qed.

(** The indices, counted from [idx], of the files that load. *)
Fixpoint loaded_indices (idx : nat) (obj_files : list Path) : list nat :=
  match obj_files with
  | [] => []
  | obj_file :: rest =>
      match attempt obj_file with
      | inr _ => idx :: loaded_indices (S idx) rest
      | inl _ => loaded_indices (S idx) rest
      end
  end.

Lemma elem_of_loaded_indices (idx i : nat) (obj_files : list Path) :
  i ∈ loaded_indices idx obj_files ↔
  ∃ k f m, i = idx + k ∧ obj_files !! k = Some f ∧ attempt f = inr m.
Proof.
  revert idx. induction obj_files as [|f rest IH]; intros idx; simpl.
  - split; [by intros ?%elem_of_nil|by intros (?&?&?&?&?&?)].
  - destruct (attempt f) as [[e ms]|m] eqn:Hf.
    + rewrite IH. split.
      * intros (k & g & m & -> & ? & ?). exists (S k), g, m.
        split_and!; [lia|done..].
      * intros ([|k] & g & m & -> & ? & ?); simplify_eq/=; [congruence|].
        exists k, g, m. split_and!; [lia|done..].
    + rewrite elem_of_cons, IH. split.
      * intros [->|(k & g & m' & -> & ? & ?)].
        -- exists 0, f, m. split_and!; [lia|done..].
        -- exists (S k), g, m'. split_and!; [lia|done..].
      * intros ([|k] & g & m' & -> & ? & ?); simplify_eq/=.
        -- left. lia.
        -- right. exists k, g, m'. split_and!; [lia|done..].
Qed.

Lemma load_loop_props (idx : nat) (obj_files : list Path) (v : Viewer) :
  props (load_loop idx obj_files v) =
  props v ++ ((λ i, preset (palette i)) <$> loaded_indices idx obj_files).
Proof.
  revert idx v. induction obj_files as [|f rest IH]; intros idx v; simpl.
  - by rewrite app_nil_r.
  - rewrite IH. unfold step.
    destruct (attempt f) as [[e ms]|m]; simpl; [done|].
    by rewrite <-app_assoc.
Qed.

Lemma load_loop_actors (idx : nat) (obj_files : list Path) (v : Viewer) :
  actors (load_loop idx obj_files v) =
  actors v ++
    seq (length (props v)) (length (loaded_indices idx obj_files)).
Proof.
  revert idx v. induction obj_files as [|f rest IH]; intros idx v; simpl.
  - by rewrite app_nil_r.
  - rewrite IH. unfold step.
    destruct (attempt f) as [[e ms]|m]; simpl; [done|].
    rewrite length_app, <-app_assoc. simpl.
    by rewrite Nat.add_1_r.
Qed.

(** Every actor of the scene is one of [actors]. *)
Definition scene_in_actors (v : Viewer) : Prop :=
  map_Forall (λ _ actor, actor ∈ actors v) (scene v).

Lemma step_scene_in_actors idx f v :
  scene_in_actors v → scene_in_actors (step idx f v).
Proof.
  unfold scene_in_actors, step. intros Hv.
  destruct (attempt f) as [[e ms]|m]; simpl; [done|].
  apply map_Forall_insert_2.
  - apply elem_of_app. right. by apply list_elem_of_singleton.
  - eapply map_Forall_impl; [done|]. intros ? a Ha.
    apply elem_of_app. by left.
Qed.

Lemma load_loop_scene_in_actors idx obj_files v :
  scene_in_actors v → scene_in_actors (load_loop idx obj_files v).
Proof.
  revert idx v. induction obj_files as [|f rest IH]; intros idx v ?;
    simpl; [done|].
  by apply IH, step_scene_in_actors.
Qed.

Lemma load_loop_frame idx obj_files v :
  background (load_loop idx obj_files v) = background v ∧
  window_size (load_loop idx obj_files v) = window_size v ∧
  slider_widgets (load_loop idx obj_files v) = slider_widgets v.
Proof.
  revert idx v. induction obj_files as [|f rest IH]; intros idx v;
    simpl; [done|].
  destruct (IH (S idx) (step idx f v)) as (-> & -> & ->).
  unfold step. by destruct (attempt f) as [[e ms]|m].
Qed.

(** The state in which the loop starts. *)
Definition start (v : Viewer) : Viewer :=
  put_lines ["Loading and rendering heart model..."; rule]
    (set_meshes []
       (set_actors []
          (set_window_size [1920; 1080]%Z
             (set_background BACKGROUND_COLOR (new_plotter v))))).

Definition opacity_slider (acts : list nat) : Slider :=
  {| slider_callback := update_opacity acts;
     slider_rng := (0.1, 1.0)%Q;
     slider_value := DEFAULT_OPACITY;
     slider_title := "Opacity" |}.

(** The two ways [create_realistic_heart_viewer] can end. *)
Lemma create_realistic_heart_viewer_eq (obj_files : list Path)
    (v : Viewer) :
  create_realistic_heart_viewer obj_files v =
  let v1 := load_loop 0 obj_files (start v) in
  if bool_decide (actors v1 = []) then
    (SysExit 1,
     put_lines [rule; "Error: No meshes were successfully loaded!"] v1)
  else
    (Return tt,
     set_slider_widgets
       (slider_widgets v1 ++ [opacity_slider (actors v1)])
       (put_lines
          [rule;
           nl +:+ "✓ Successfully loaded " +:+ pretty (length (actors v1))
              +:+ " heart components" +:+ nl] v1)).
Proof.
  unfold create_realistic_heart_viewer. io.
  change (for_each _ _ _) with
    (for_each (enumerate 0 obj_files)
       (λ '(idx, obj_file), load_one idx obj_file) (start v)).
  rewrite for_each_load_one. simpl.
  by case_bool_decide.
Qed.
End viewer_loop.

(** ** The viewer once built *)
Section viewer_claims.
Context `{PyVista}.

Lemma create_realistic_heart_viewer_scene (obj_files : list Path)
    (v : Viewer) :
  let v' := (create_realistic_heart_viewer obj_files v).2 in
  let v1 := load_loop 0 obj_files (start v) in
  props v' = props v1 ∧ actors v' = actors v1 ∧ scene v' = scene v1.
Proof.
  simpl. rewrite create_realistic_heart_viewer_eq. simpl.
  by case_bool_decide.
Qed.

Lemma created_actors (obj_files : list Path) (v : Viewer) :
  let v' := (create_realistic_heart_viewer obj_files v).2 in
  props v' =
    props v ++ ((λ i, preset (palette i)) <$> loaded_indices 0 obj_files) ∧
  actors v' =
    seq (length (props v)) (length (loaded_indices 0 obj_files)) ∧
  scene_in_actors v'.
Proof.
  simpl.
  destruct (create_realistic_heart_viewer_scene obj_files v)
    as (Hp & Ha & Hs).
  split_and!.
  - by rewrite Hp, load_loop_props.
  - by rewrite Ha, load_loop_actors.
  - unfold scene_in_actors. rewrite Hs, Ha.
    apply load_loop_scene_in_actors. apply map_Forall_empty.
Qed.

(** The [k]-th actor is the [k]-th file that loaded. *)
Lemma created_actor_lookup (obj_files : list Path) (v : Viewer)
    (k actor : nat) :
  let v' := (create_realistic_heart_viewer obj_files v).2 in
  actors v' !! k = Some actor →
  ∃ i, loaded_indices 0 obj_files !! k = Some i ∧
       props v' !! actor = Some (preset (palette i)).
Proof.
  simpl. destruct (created_actors obj_files v) as (-> & -> & _).
  intros [-> Hk]%lookup_seq.
  destruct (lookup_lt_is_Some_2 _ _ Hk) as [i Hi].
  exists i. split; [done|].
  rewrite lookup_app_r by lia.
  replace (length (props v) + k - length (props v)) with k by lia.
  by rewrite list_lookup_fmap, Hi.
Qed.

Lemma update_opacity_lookup (acts : list nat) (value : Q)
    (ps : list Property) (i : nat) :
  update_opacity acts value ps !! i =
  (if decide (i ∈ acts) then SetOpacity value else λ p, p) <$> ps !! i.
Proof.
  revert ps. induction acts as [|a acts IH]; intros ps.
  - change (update_opacity [] value ps) with ps.
    destruct (decide (i ∈ [])) as [Hi|_]; [by apply elem_of_nil in Hi|].
    by destruct (ps !! i).
  - change (update_opacity (a :: acts) value ps)
      with (update_opacity acts value (alter (SetOpacity value) a ps)).
    rewrite IH, list_lookup_alter.
    destruct (decide (i ∈ acts)) as [Hi|Hi],
      (decide (i ∈ a :: acts)) as [Hi'|Hi'], (decide (a = i)) as [->|Hne];
      try done; try (by destruct (ps !! i)).
    + destruct Hi'. apply elem_of_cons; by right.
    + destruct Hi'. apply elem_of_cons; by right.
    + apply elem_of_cons in Hi' as [?|?]; congruence.
    + destruct Hi'. apply elem_of_cons; by left.
Qed.

Lemma update_opacity_length (acts : list nat) (value : Q)
    (ps : list Property) :
  length (update_opacity acts value ps) = length ps.
Proof.
  revert ps. induction acts as [|a acts IH]; intros ps; [done|].
  change (update_opacity (a :: acts) value ps)
    with (update_opacity acts value (alter (SetOpacity value) a ps)).
  by rewrite IH, length_alter.
Qed.

Lemma clamp_range (lo hi x : Q) :
  (lo <= hi)%Q → (lo <= clamp (lo, hi) x <= hi)%Q.
Proof.
  intros Hle. unfold clamp. simpl.
  destruct (Qle_bool x lo) eqn:H1; [split; [apply Qle_refl|done]|].
  destruct (Qle_bool hi x) eqn:H2; [split; [done|apply Qle_refl]|].
  split.
  - apply Qlt_le_weak, Qnot_le_lt. intros ?%Qle_bool_iff. congruence.
  - apply Qlt_le_weak, Qnot_le_lt. intros ?%Qle_bool_iff. congruence.
Qed.
Lemma attempt_inr (obj_file : Path) (m : Mesh) :
  attempt obj_file = inr m ↔
  pv_read obj_file = inr m ∧
  ∃ m', compute_normals m = inr m' ∧ add_mesh_error m' = None.
Proof.
  unfold attempt. destruct (pv_read obj_file) as [e|m0]; [by split; [|intros []]|].
  destruct (compute_normals m0) as [e|m'] eqn:Hn.
  - split; [done|]. intros [[= ->] (? & ? & _)]. congruence.
  - destruct (add_mesh_error m') as [e|] eqn:Ha.
    + split; [done|]. intros [[= ->] (? & ? & ?)]. congruence.
    + split; [intros [= ->]; eauto|by intros [[= ->] _]].
Qed.

(** [meshes.append(mesh)] runs as soon as the file is read. *)
Definition read_mesh (obj_file : Path) : option Mesh :=
  match pv_read obj_file with
  | inr m => Some m
  | inl _ => None
  end.

Lemma load_loop_meshes (idx : nat) (obj_files : list Path) (v : Viewer) :
  meshes (load_loop idx obj_files v) = meshes v ++ omap read_mesh obj_files.
Proof.
  revert idx v. induction obj_files as [|f rest IH]; intros idx v; simpl.
  - by rewrite app_nil_r.
  - rewrite IH. unfold step, attempt, read_mesh.
    destruct (pv_read f) as [e|m]; simpl; [by rewrite app_nil_r|].
    destruct (compute_normals m) as [e|m']; simpl; [by rewrite <-app_assoc|].
    destruct (add_mesh_error m'); simpl; by rewrite <-app_assoc.
Qed.

(** The line the loop prints for a file. *)
Definition report (obj_file : Path) : string :=
  match attempt obj_file with
  | inr _ => "  ✓ Loaded: " +:+ name obj_file
  | inl (e, _) =>
      "  ✗ Warning: Could not load " +:+ name obj_file +:+ ": " +:+ e
  end.

Lemma load_loop_console (idx : nat) (obj_files : list Path) (v : Viewer) :
  console (load_loop idx obj_files v) = console v ++ (report <$> obj_files).
Proof.
  revert idx v. induction obj_files as [|f rest IH]; intros idx v; simpl.
  - by rewrite app_nil_r.
  - rewrite IH. unfold step, report.
    destruct (attempt f) as [[e ms]|m]; simpl; by rewrite <-app_assoc.
Qed.

Lemma created_meshes_console (obj_files : list Path) (v : Viewer) :
  let v' := (create_realistic_heart_viewer obj_files v).2 in
  let v1 := load_loop 0 obj_files (start v) in
  meshes v' = meshes v1 ∧
  ∃ closing, console v' = console v1 ++ [rule; closing].
Proof.
  cbv zeta. rewrite create_realistic_heart_viewer_eq. cbv zeta.
  case_bool_decide; simpl; (split; [done|]); eexists;
    by rewrite <-app_assoc.
Qed.

(** The three places where the body of the [try] can raise. *)
Lemma attempt_inl (obj_file : Path) (e : string) :
  (∃ ms, attempt obj_file = inl (e, ms)) ↔
  pv_read obj_file = inl e ∨
  (∃ m, pv_read obj_file = inr m ∧ compute_normals m = inl e) ∨
  (∃ m m', pv_read obj_file = inr m ∧ compute_normals m = inr m' ∧
           add_mesh_error m' = Some e).
Proof.
  unfold attempt. destruct (pv_read obj_file) as [e0|m].
  { split.
    - intros [ms [= -> _]]. by left.
    - intros [[= ->]|[(? & ? & _)|(? & ? & ? & _)]]; try done. by eexists. }
  destruct (compute_normals m) as [e0|m'] eqn:Hn.
  { split.
    - intros [ms [= -> _]]. right; left. eauto.
    - intros [?|[(? & [= <-] & Hn')|(? & ? & [= <-] & Hn' & _)]];
        try done; rewrite Hn in Hn'; simplify_eq. by eexists. }
  destruct (add_mesh_error m') as [e0|] eqn:Ha.
  - split.
    + intros [ms [= -> _]]. right; right. eauto.
    + intros [?|[(? & [= <-] & Hn')|(? & ? & [= <-] & Hn' & Ha')]];
        try done; rewrite Hn in Hn'; simplify_eq. by eexists.
  - split; [by intros [? ?]|].
    intros [?|[(? & [= <-] & Hn')|(? & ? & [= <-] & Hn' & Ha')]];
      try done; rewrite Hn in Hn'; simplify_eq.
Qed.

Lemma created_console (obj_files : list Path) (v : Viewer) (k : nat)
    (f : Path) :
  obj_files !! k = Some f →
  console (create_realistic_heart_viewer obj_files v).2
    !! (length (console v) + 2 + k) = Some (report f).
Proof.
  intros Hk.
  destruct (created_meshes_console obj_files v) as [_ [closing Hc]].
  cbv zeta in Hc. rewrite Hc, load_loop_console. simpl.
  rewrite <-!app_assoc, lookup_app_r by lia.
  replace (length (console v) + 2 + k - length (console v)) with (2 + k)
    by lia.
  simpl. rewrite lookup_app_l.
  - by rewrite list_lookup_fmap, Hk.
  - rewrite length_fmap. by eapply lookup_lt_Some.
Qed.
End viewer_claims.

(** C1: the palette is the four muscle-tissue tones twice, then the three
    arterial and the three venous tones, fourteen colours in all; and the
    actors of the viewer are, in order, those of the files that loaded,
    the one of the file at index [i] of [obj_files] carrying the colour
    [ALL_COLORS[i mod 14]]. *)
Theorem color_by_index `{PyVista} (obj_files : list Path) (v : Viewer) :
  let v' := (create_realistic_heart_viewer obj_files v).2 in
  (∃ muscle_tissue arterial venous,
     HEART_COLORS !! "muscle_tissue" = Some muscle_tissue ∧
     HEART_COLORS !! "arterial" = Some arterial ∧
     HEART_COLORS !! "venous" = Some venous ∧
     length muscle_tissue = 4 ∧ length arterial = 3 ∧ length venous = 3 ∧
     ALL_COLORS = muscle_tissue ++ muscle_tissue ++ arterial ++ venous) ∧
  length ALL_COLORS = 14 ∧
  (∀ i, i ∈ loaded_indices 0 obj_files ↔
        ∃ f m, obj_files !! i = Some f ∧ attempt f = inr m) ∧
  Forall2
    (λ actor i, ∃ p, props v' !! actor = Some p ∧
                     ALL_COLORS !! (i `mod` 14) = Some (color_ p))
    (actors v') (loaded_indices 0 obj_files).
Proof.
  simpl. split_and!.
  - eexists _, _, _. split_and!; [by vm_compute..|].
    by vm_compute.
  - apply ALL_COLORS_length.
  - intros i. rewrite elem_of_loaded_indices. split.
    + intros (k & f & m & -> & ? & ?). eauto.
    + intros (f & m & ? & ?). exists i, f, m. done.
  - apply Forall2_same_length_lookup_2.
    + destruct (created_actors obj_files v) as (_ & -> & _).
      by rewrite length_seq.
    + intros k actor i Hactor Hi.
      destruct (created_actor_lookup obj_files v k actor Hactor)
        as (i' & Hi' & Hp).
      simplify_eq. eexists. split; [done|].
      pose proof (palette_lookup i) as Hpal.
      rewrite ALL_COLORS_length in Hpal. exact Hpal.
Qed.

(** C6: every actor the viewer holds, in the list [actors] and in the
    plotter's scene alike, has the lighting preset: ambient 0.35, diffuse
    0.65, specular 0.15, specular power 8, Phong interpolation and opacity
    1.0, whatever its index and colour. *)
Theorem lighting_preset_on_every_actor `{PyVista} (obj_files : list Path)
    (v : Viewer) :
  let v' := (create_realistic_heart_viewer obj_files v).2 in
  let preset_applied (actor : nat) :=
    ∃ p, props v' !! actor = Some p ∧
         ambient p = 0.35%Q ∧ diffuse p = 0.65%Q ∧ specular p = 0.15%Q ∧
         specular_power p = 8%Q ∧ interpolation p = Phong ∧
         opacity p = 1.0%Q in
  Forall preset_applied (actors v') ∧
  map_Forall (λ _ actor, preset_applied actor) (scene v').
Proof.
  simpl.
  assert (∀ actor,
    actor ∈ actors (create_realistic_heart_viewer obj_files v).2 →
    ∃ p, props (create_realistic_heart_viewer obj_files v).2 !! actor
           = Some p ∧
         ambient p = 0.35%Q ∧ diffuse p = 0.65%Q ∧ specular p = 0.15%Q ∧
         specular_power p = 8%Q ∧ interpolation p = Phong ∧
         opacity p = 1.0%Q) as Hall.
  { intros actor [k Hk]%list_elem_of_lookup.
    destruct (created_actor_lookup obj_files v k actor Hk) as (i & _ & Hp).
    by eexists. }
  split.
  - by apply Forall_forall.
  - destruct (created_actors obj_files v) as (_ & _ & Hs).
    intros nm actor Hnm. apply Hall. by apply (Hs nm).
Qed.

(** C9: in the viewer as built, the opacity slider has the range
    [[0.1, 1.0]] and [update_opacity] over the list [actors] as its
    callback.  Dragging it hands the callback a value inside that range;
    the callback gives that opacity to every actor of [actors], hence to
    every actor of the scene, and leaves the colour, ambient, diffuse,
    specular, specular power, interpolation and edge visibility of every
    material as they were, as well as the actors, the scene and the
    meshes. *)
Theorem update_opacity_frame `{PyVista} (obj_files : list Path)
    (v v' : Viewer) (raw : Q) :
  create_realistic_heart_viewer obj_files v = (Return tt, v') →
  ∃ s value,
    slider_widgets v' = [s] ∧
    slider_rng s = (0.1, 1.0)%Q ∧
    slider_callback s = update_opacity (actors v') ∧
    value = clamp (slider_rng s) raw ∧
    (0.1 <= value <= 1.0)%Q ∧
    let v'' := slide 0 raw v' in
    props v'' = update_opacity (actors v') value (props v') ∧
    actors v'' = actors v' ∧ scene v'' = scene v' ∧
    meshes v'' = meshes v' ∧ console v'' = console v' ∧
    length (props v'') = length (props v') ∧
    (∀ actor, actor ∈ actors v' →
       ∃ p, props v' !! actor = Some p ∧
            props v'' !! actor = Some (SetOpacity value p)) ∧
    (∀ nm actor, scene v' !! nm = Some actor →
       ∃ p, props v' !! actor = Some p ∧
            props v'' !! actor = Some (SetOpacity value p)) ∧
    (∀ i p, props v' !! i = Some p →
       ∃ p', props v'' !! i = Some p' ∧
             color_ p' = color_ p ∧ ambient p' = ambient p ∧
             diffuse p' = diffuse p ∧ specular p' = specular p ∧
             specular_power p' = specular_power p ∧
             interpolation p' = interpolation p ∧
             edge_visibility p' = edge_visibility p ∧
             (i ∉ actors v' → p' = p)).
Proof.
  intros Hrun.
  pose proof (created_actors obj_files v) as (Hprops & Hacts & Hscene).
  assert (∀ actor,
    actor ∈ actors (create_realistic_heart_viewer obj_files v).2 →
    is_Some (props (create_realistic_heart_viewer obj_files v).2 !! actor))
    as Hall.
  { intros actor [k Hk]%list_elem_of_lookup.
    destruct (created_actor_lookup obj_files v k actor Hk) as (i & _ & Hp).
    by eexists. }
  rewrite Hrun in Hprops, Hacts, Hscene, Hall. simpl in Hprops, Hacts, Hscene, Hall.
  rewrite create_realistic_heart_viewer_eq in Hrun. simpl in Hrun.
  case_bool_decide; [done|].
  destruct (load_loop_frame 0 obj_files (start v)) as (_ & _ & Hsl).
  simpl in Hsl.
  assert (slider_widgets v' =
          [opacity_slider (actors (load_loop 0 obj_files (start v)))]) as Hs.
  { injection Hrun as <-. simpl. by rewrite Hsl. }
  assert (actors (load_loop 0 obj_files (start v)) = actors v') as Ha.
  { by injection Hrun as <-. }
  rewrite Ha in Hs. clear Hrun Ha Hsl.
  exists (opacity_slider (actors v')), (clamp (0.1, 1.0)%Q raw).
  split_and!; try done.
  { by apply (clamp_range 0.1 1.0). }
  { by apply (clamp_range 0.1 1.0). }
  assert (props (slide 0 raw v') =
          update_opacity (actors v') (clamp (0.1, 1.0)%Q raw) (props v'))
    as Hp.
  { unfold slide. by rewrite Hs. }
  assert (∀ actor, actor ∈ actors v' →
    ∃ p, props v' !! actor = Some p ∧
         props (slide 0 raw v') !! actor =
           Some (SetOpacity (clamp (0.1, 1.0)%Q raw) p)) as Hset.
  { intros actor Hactor. rewrite Hp, update_opacity_lookup.
    rewrite decide_True by done.
    destruct (Hall actor Hactor) as (p & Hlk).
    exists p. by rewrite Hlk. }
  simpl. split_and!; try done; try (unfold slide; by rewrite Hs).
  - by rewrite Hp, update_opacity_length.
  - intros nm actor Hnm. apply Hset. by apply (Hscene nm).
  - intros i p Hi. rewrite Hp, update_opacity_lookup, Hi. simpl.
    eexists. split; [done|]. by case_decide.
Qed.

(** C2: when the mesh folder does not exist, or holds no name that
    matches ["*.obj"], the program prints its message and leaves the
    process with status 1, whatever would have followed.  When the body of
    the [try] raises on a file (on reading it, on computing its normals or
    on plotting it), the viewer prints the warning with the file's name
    and the text of the exception on that file's line and makes no actor
    for it; every other file of the list that can be loaded is reported as
    loaded on its own line and has its actor, with the colour of its own
    index.  Of the file skipped, the mesh stays in [meshes] when it could
    be read. *)
Theorem startup_failures `{PyVista} `{Pathlib} (to_path : string → Path)
    (show : IO Viewer unit) :
  (∀ fs (v : Viewer),
     fs !! to_path OBJ_FOLDER = None →
     main to_path show fs v =
     (SysExit 1,
      put_lines
        [nl +:+ rule; "  REALISTIC 3D HEART MODEL VIEWER"; rule;
         "Error: Folder '" +:+ OBJ_FOLDER +:+ "' does not exist!";
         "Please create the folder and place your .obj files inside."] v)) ∧
  (∀ fs nd (v : Viewer),
     fs !! to_path OBJ_FOLDER = Some nd →
     (∀ entries n, nd = Dir entries → n ∈ entries → ¬ obj_name n) →
     main to_path show fs v =
     (SysExit 1,
      put_lines
        [nl +:+ rule; "  REALISTIC 3D HEART MODEL VIEWER"; rule;
         "Error: No .obj files found in '" +:+ OBJ_FOLDER +:+ "'!"] v)) ∧
  (∀ pre f post e (v : Viewer),
     (pv_read f = inl e ∨
      (∃ m, pv_read f = inr m ∧ compute_normals m = inl e) ∨
      (∃ m m', pv_read f = inr m ∧ compute_normals m = inr m' ∧
               add_mesh_error m' = Some e)) →
     let obj_files := pre ++ f :: post in
     let v' := (create_realistic_heart_viewer obj_files v).2 in
     console v' !! (length (console v) + 2 + length pre) =
       Some ("  ✗ Warning: Could not load " +:+ name f +:+ ": " +:+ e) ∧
     (length pre ∉ loaded_indices 0 obj_files) ∧
     (∀ i g m m',
        obj_files !! i = Some g →
        pv_read g = inr m → compute_normals m = inr m' →
        add_mesh_error m' = None →
        console v' !! (length (console v) + 2 + i) =
          Some ("  ✓ Loaded: " +:+ name g) ∧
        i ∈ loaded_indices 0 obj_files) ∧
     Forall2
       (λ actor i, ∃ p, props v' !! actor = Some p ∧
                        ALL_COLORS !! (i `mod` 14) = Some (color_ p))
       (actors v') (loaded_indices 0 obj_files) ∧
     meshes v' = omap read_mesh obj_files).
Proof.
  split_and!.
  - intros fs v Hfs. unfold main. io.
    rewrite load_obj_files_on_eq. unfold exists_.
    rewrite bool_decide_eq_false_2; [done|].
    rewrite Hfs. by intros [? ?].
  - intros fs nd v Hfs Hnone. unfold main. io.
    rewrite load_obj_files_on_eq. unfold exists_.
    rewrite bool_decide_eq_true_2 by (by rewrite Hfs).
    simpl. rewrite bool_decide_eq_true_2; [done|].
    apply sorted_path_lt_nil, elem_of_nil_inv. intros p Hp.
    unfold glob_on in Hp. rewrite Hfs in Hp.
    destruct nd as [|entries]; [by apply elem_of_nil in Hp|].
    apply list_elem_of_fmap in Hp as (n & _ & [Hn Hobj]%list_elem_of_filter).
    apply compile_pattern_obj in Hn. by apply (Hnone entries n).
  - intros pre f post e v Hfail. cbv zeta.
    apply attempt_inl in Hfail as [ms Hf].
    assert ((pre ++ f :: post) !! length pre = Some f) as Hpre.
    { by rewrite lookup_app_r, Nat.sub_diag. }
    split_and!.
    + rewrite (created_console _ _ _ f Hpre). unfold report. by rewrite Hf.
    + intros (k & g & m & Hk & Hg & Hm)%elem_of_loaded_indices.
      simpl in Hk. subst k. rewrite Hpre in Hg. congruence.
    + intros i g m m' Hi Hr Hn Ha.
      assert (attempt g = inr m) as Hg by (apply attempt_inr; eauto).
      split.
      * rewrite (created_console _ _ _ g Hi). unfold report. by rewrite Hg.
      * apply elem_of_loaded_indices. exists i, g, m. done.
    + apply Forall2_same_length_lookup_2.
      * destruct (created_actors (pre ++ f :: post) v) as (_ & -> & _).
        by rewrite length_seq.
      * intros k actor i Hactor Hi.
        destruct (created_actor_lookup _ v k actor Hactor)
          as (i' & Hi' & Hp).
        simplify_eq. eexists. split; [done|].
        pose proof (palette_lookup i) as Hpal.
        rewrite ALL_COLORS_length in Hpal. exact Hpal.
    + destruct (created_meshes_console (pre ++ f :: post) v) as [-> _].
      by rewrite load_loop_meshes.
Qed.

(** ** The launcher *)
Definition escape_window (cls : WindowClass) (title : string) (w : nat)
  : Toplevel :=
  {| tl_class := Some cls; tl_title := title; tl_bg := "#2a2a2a";
     tl_state := "zoomed";
     tl_bindings := {[ "<Escape>" := window_destroy w ]} |}.

Lemma detail_window_eq (cls : WindowClass) (title : string) (tk : Tk) :
  detail_window cls title tk =
  set_next_id (S (next_id tk))
    (set_toplevels
       (<[next_id tk := escape_window cls title (next_id tk)]> (toplevels tk))
       tk).
Proof.
  unfold detail_window, new_toplevel, bind_key, set_next_id, set_toplevels.
  simpl. rewrite alter_insert_eq. simpl. by rewrite insert_empty.
Qed.

(** The names [open_system] knows and the window class of each. *)
Definition system_windows : list (string * WindowClass) :=
  [("Cardiac System", CardiacWindow);
   ("Nervous System", NervousWindow);
   ("Musculoskeletal System", MusculoskeletalWindow);
   ("Dental System", DentalWindow)].

Lemma open_system_known (system_name emoji : string) (cls : WindowClass)
    (tk : Tk) :
  (system_name, cls) ∈ system_windows →
  ∃ title, open_system system_name emoji tk = detail_window cls title tk.
Proof.
  unfold system_windows. rewrite !elem_of_cons, elem_of_nil.
  intros [[= -> ->]|[[= -> ->]|[[= -> ->]|[[= -> ->]|[]]]]];
    eexists; reflexivity.
Qed.

Lemma open_system_cases (system_name emoji : string) (tk : Tk) :
  open_system system_name emoji tk = tk ∨
  ∃ cls title, open_system system_name emoji tk = detail_window cls title tk.
Proof.
  unfold open_system.
  repeat (destruct (String.eqb system_name _); [right; by eexists _, _|]).
  by left.
Qed.

(** What holds of the windows however the launcher has been used. *)
Record gui_inv (tk : Tk) : Prop := {
  inv_root :
    ∃ t, toplevels tk !! root = Some t ∧ tl_class t = None ∧
         tl_bindings t = {[ "<Escape>" := root_quit ]};
  inv_detail :
    ∀ w t, toplevels tk !! w = Some t → w ≠ root →
           is_Some (tl_class t) ∧
           tl_bindings t = {[ "<Escape>" := window_destroy w ]};
  inv_fresh :
    0 < next_id tk ∧ ∀ w, is_Some (toplevels tk !! w) → w < next_id tk;
  inv_buttons :
    Forall (λ b, ∃ emo, command b = Some (open_system_of (text b) emo))
      (buttons tk)
}.

Lemma gui_inv_buttons tk bs r :
  gui_inv tk →
  Forall (λ b, ∃ emo, command b = Some (open_system_of (text b) emo)) bs →
  gui_inv (set_running r (set_buttons bs tk)).
Proof. intros [? ? ? ?] ?. by split. Qed.

Lemma gui_inv_detail_window cls title tk :
  gui_inv tk → gui_inv (detail_window cls title tk).
Proof.
  intros [(t0 & Ht0 & Hcls & Hb) Hdet [Hpos Hfresh] Hbtn].
  rewrite detail_window_eq. unfold root in *. split; simpl; unfold root.
  - exists t0. rewrite lookup_insert_ne by lia. done.
  - intros w t [[-> <-]|[? ?]]%lookup_insert_Some Hw; simpl; eauto.
  - split; [lia|]. intros w [t [[-> <-]|[? Hw]]%lookup_insert_Some]; [lia|].
    assert (w < next_id tk) by eauto. lia.
  - done.
Qed.

Lemma gui_inv_open_system system_name emo tk :
  gui_inv tk → gui_inv (open_system system_name emo tk).
Proof.
  intros Hinv.
  destruct (open_system_cases system_name emo tk) as [->|(c & ti & ->)];
    [done|by apply gui_inv_detail_window].
Qed.

Lemma gui_inv_destroy w tk :
  gui_inv tk → w ≠ root →
  gui_inv (set_toplevels (delete w (toplevels tk)) tk).
Proof.
  intros [(t0 & Ht0 & Hcls & Hb) Hdet [Hpos Hfresh] Hbtn] Hw. split; simpl.
  - exists t0. by rewrite lookup_delete_ne.
  - intros w' t [? ?]%lookup_delete_Some. eauto.
  - split; [done|]. intros w' [t [? ?]%lookup_delete_Some]. eauto.
  - done.
Qed.

Lemma key_press_escape_root tk :
  gui_inv tk → key_press root "<Escape>" tk = set_running false tk.
Proof.
  intros [(t0 & Ht0 & Hcls & Hb) _ _ _]. unfold key_press.
  rewrite Ht0, Hb. by rewrite lookup_singleton_eq.
Qed.

Lemma key_press_escape_detail tk w t :
  gui_inv tk → toplevels tk !! w = Some t → w ≠ root →
  key_press w "<Escape>" tk = set_toplevels (delete w (toplevels tk)) tk.
Proof.
  intros [_ Hdet _ _] Hw Hne. unfold key_press.
  destruct (Hdet w t Hw Hne) as [_ Hb].
  rewrite Hw, Hb. by rewrite lookup_singleton_eq.
Qed.

Lemma gui_inv_key_press w sequence tk :
  gui_inv tk → gui_inv (key_press w sequence tk).
Proof.
  intros Hinv. unfold key_press.
  destruct (toplevels tk !! w) as [t|] eqn:Hw; [|done].
  destruct (decide (w = root)) as [->|Hne].
  - destruct Hinv as [(t0 & Ht0 & Hcls & Hb) Hdet Hfresh Hbtn].
    simplify_eq. rewrite Hb.
    destruct (decide (sequence = "<Escape>")) as [->|Hs].
    + rewrite lookup_singleton_eq. simpl. split; simpl; eauto.
    + rewrite lookup_singleton_ne by done. split; eauto.
  - destruct (inv_detail tk Hinv w t Hw Hne) as [_ Hb]. rewrite Hb.
    destruct (decide (sequence = "<Escape>")) as [->|Hs].
    + rewrite lookup_singleton_eq. simpl. by apply gui_inv_destroy.
    + by rewrite lookup_singleton_ne.
Qed.

Lemma gui_inv_on_release i tk : gui_inv tk → gui_inv (on_release i tk).
Proof.
  intros Hinv. unfold on_release.
  destruct (buttons tk !! i) as [b|] eqn:Hb; [|done].
  pose proof (inv_buttons tk Hinv) as Hbtn.
  destruct (proj1 (Forall_lookup _ _) Hbtn i b Hb) as (e & Hcmd).
  rewrite Hcmd. simpl. apply gui_inv_open_system.
  destruct Hinv as [? ? ? ?]. split; simpl; try done.
  apply Forall_insert; [done|]. simpl. eauto.
Qed.

Lemma gui_inv_mainloop events tk :
  gui_inv tk → gui_inv (mainloop events tk).
Proof.
  revert tk. induction events as [|ev events IH]; intros tk Hinv; [done|].
  simpl. apply IH. unfold handle.
  destruct (running tk); [|done].
  destruct ev; [by apply gui_inv_on_release|by apply gui_inv_key_press].
Qed.

Lemma gui_inv_gui_main : gui_inv gui_main.
Proof.
  split.
  - eexists. split; [by vm_compute|]. split; [done|]. by vm_compute.
  - intros w t Hw Hne. exfalso. apply Hne.
    assert (toplevels gui_main = {[ root :=
      {| tl_class := None; tl_title := "Human Body Systems Viewer";
         tl_bg := "#1a1a1a"; tl_state := "zoomed";
         tl_bindings := {[ "<Escape>" := root_quit ]} |} ]}) as Heq
      by by vm_compute.
    rewrite Heq in Hw. by apply lookup_singleton_Some in Hw as [? _].
  - split; [simpl; lia|]. intros w [t Hw].
    assert (toplevels gui_main = {[ root :=
      {| tl_class := None; tl_title := "Human Body Systems Viewer";
         tl_bg := "#1a1a1a"; tl_state := "zoomed";
         tl_bindings := {[ "<Escape>" := root_quit ]} |} ]}) as Heq
      by by vm_compute.
    rewrite Heq in Hw. apply lookup_singleton_Some in Hw as [<- _].
    simpl. unfold root. lia.
  - unfold gui_main, MedicalSystemsGUI_init, create_widgets. simpl.
    repeat constructor; by eexists.
Qed.

Lemma detail_window_escape (cls : WindowClass) (title : string) (tk : Tk) :
  gui_inv tk →
  let tk' := detail_window cls title tk in
  (∃ t, toplevels tk' = <[next_id tk := t]> (toplevels tk) ∧
        tl_class t = Some cls) ∧
  toplevels (key_press (next_id tk) "<Escape>" tk') = toplevels tk ∧
  running (key_press (next_id tk) "<Escape>" tk') = running tk.
Proof.
  intros Hinv. cbv zeta. rewrite detail_window_eq. split.
  { by eexists. }
  unfold key_press. simpl. rewrite lookup_insert_eq. simpl.
  rewrite lookup_singleton_eq. simpl.
  split; [|done]. apply delete_insert_id.
  destruct (toplevels tk !! next_id tk) eqn:Hw; [|done].
  destruct (inv_fresh tk Hinv) as [_ Hfresh].
  assert (next_id tk < next_id tk) by eauto. lia.
Qed.

(** C5: however the launcher has been used, Escape in a detail window
    runs that window's own [destroy], which removes it and nothing else,
    and Escape in the main window runs [quit], which ends the event loop;
    this holds for the window of each of the four systems. *)
Theorem escape_closes_active_window (events : list Event) :
  let tk := mainloop events gui_main in
  (∀ w t cls,
     toplevels tk !! w = Some t → tl_class t = Some cls →
     key_press w "<Escape>" tk =
     set_toplevels (delete w (toplevels tk)) tk) ∧
  (∃ t, toplevels tk !! root = Some t ∧ tl_class t = None) ∧
  key_press root "<Escape>" tk = set_running false tk ∧
  (∀ init,
     init ∈ [CardiacWindow_init; NervousWindow_init;
             MusculoskeletalWindow_init; DentalWindow_init] →
     let tk' := init root tk in
     is_Some (toplevels tk' !! next_id tk) ∧
     toplevels (key_press (next_id tk) "<Escape>" tk') = toplevels tk ∧
     running (key_press (next_id tk) "<Escape>" tk') = running tk).
Proof.
  simpl. pose proof (gui_inv_mainloop events _ gui_inv_gui_main) as Hinv.
  split_and!.
  - intros w t cls Hw Hcls. apply (key_press_escape_detail _ _ t Hinv Hw).
    intros ->. destruct (inv_root _ Hinv) as (t0 & Ht0 & Hnone & _).
    congruence.
  - destruct (inv_root _ Hinv) as (t0 & Ht0 & Hnone & _). eauto.
  - by apply key_press_escape_root.
  - intros init Hinit.
    assert (∃ cls title, init root (mainloop events gui_main) =
              detail_window cls title (mainloop events gui_main))
      as (cls & title & ->).
    { rewrite !elem_of_cons, elem_of_nil in Hinit.
      destruct Hinit as [->|[->|[->|[->|[]]]]]; by eexists _, _. }
    destruct (detail_window_escape cls title _ Hinv)
      as ((t & -> & _) & Hdel & Hrun).
    rewrite lookup_insert_eq. eauto.
Qed.

(** C7: the main menu has exactly four buttons, named after the cardiac,
    nervous, musculoskeletal and dental systems, each with the command
    that calls [open_system] with its own name; [open_system] constructs
    the window class that belongs to each of the four names; and releasing
    a button while the event loop runs opens the window of its system. *)
Theorem launcher_buttons_open_windows :
  text <$> buttons gui_main =
    ["Cardiac System"; "Nervous System"; "Musculoskeletal System";
     "Dental System"] ∧
  Forall (λ b, ∃ emo, command b = Some (open_system_of (text b) emo))
    (buttons gui_main) ∧
  (∀ emo tk,
     open_system "Cardiac System" emo tk = CardiacWindow_init root tk ∧
     open_system "Nervous System" emo tk = NervousWindow_init root tk ∧
     open_system "Musculoskeletal System" emo tk =
       MusculoskeletalWindow_init root tk ∧
     open_system "Dental System" emo tk = DentalWindow_init root tk) ∧
  (∀ system_name cls emo tk,
     (system_name, cls) ∈ system_windows →
     ∃ t, toplevels (open_system system_name emo tk) =
            <[next_id tk := t]> (toplevels tk) ∧
          tl_class t = Some cls) ∧
  (∀ events i b cls,
     let tk := mainloop events gui_main in
     running tk = true →
     buttons tk !! i = Some b →
     (text b, cls) ∈ system_windows →
     ∃ t, toplevels (handle (ButtonRelease i) tk) =
            <[next_id tk := t]> (toplevels tk) ∧
          tl_class t = Some cls).
Proof.
  split_and!.
  - reflexivity.
  - exact (inv_buttons _ gui_inv_gui_main).
  - done.
  - intros system_name cls emo tk Hin.
    destruct (open_system_known system_name emo cls tk Hin) as [title ->].
    rewrite detail_window_eq. by eexists.
  - intros events i b cls tk Hrun Hb Hin. unfold handle, on_release.
    rewrite Hrun, Hb.
    pose proof (gui_inv_mainloop events _ gui_inv_gui_main) as Hinv.
    pose proof (inv_buttons _ Hinv) as Hbtn.
    destruct (proj1 (Forall_lookup _ _) Hbtn i b Hb) as (e & ->). simpl.
    destruct (open_system_known (text b) e cls
                (set_buttons (<[i:=update_color (hover_color b) b]>
                   (buttons tk)) tk) Hin) as [title ->].
    rewrite detail_window_eq. by eexists.
Qed.

(** C8: under a name that is none of the four, [open_system] takes no
    branch and returns with the state as it was: no window is opened. *)
Theorem open_system_unknown (system_name emo : string) (tk : Tk) :
  system_name ≠ "Cardiac System" →
  system_name ≠ "Nervous System" →
  system_name ≠ "Musculoskeletal System" →
  system_name ≠ "Dental System" →
  open_system system_name emo tk = tk.
Proof.
  intros H1%String.eqb_neq H2%String.eqb_neq H3%String.eqb_neq
    H4%String.eqb_neq.
  unfold open_system. by rewrite H1, H2, H3, H4.
Qed.

(** ** The rounded border *)

(** The outline of the rounded rectangle with corners [(x1, y1)] and
    [(x2, y2)] and corner radius [radius]: four sides between the points
    where the corner circles touch them, and of each corner circle the
    quarter that faces outwards. *)
Inductive Corner := TopRight | BottomRight | BottomLeft | TopLeft.

Section rounded_rectangle.
Variables x1 y1 x2 y2 radius : Z.

Definition on_side (p : point) : Prop :=
  (p.2 = IZR y1 ∧ IZR (x1 + radius) <= p.1 <= IZR (x2 - radius))%R ∨
  (p.1 = IZR x2 ∧ IZR (y1 + radius) <= p.2 <= IZR (y2 - radius))%R ∨
  (p.2 = IZR y2 ∧ IZR (x1 + radius) <= p.1 <= IZR (x2 - radius))%R ∨
  (p.1 = IZR x1 ∧ IZR (y1 + radius) <= p.2 <= IZR (y2 - radius))%R.

Definition center (c : Corner) : point :=
  match c with
  | TopRight => (IZR (x2 - radius), IZR (y1 + radius))
  | BottomRight => (IZR (x2 - radius), IZR (y2 - radius))
  | BottomLeft => (IZR (x1 + radius), IZR (y2 - radius))
  | TopLeft => (IZR (x1 + radius), IZR (y1 + radius))
  end.

(** [y] grows downwards: the top corners face towards smaller [y]. *)
Definition in_outer_quadrant (c : Corner) (p : point) : Prop :=
  match c with
  | TopRight => ((center c).1 <= p.1 ∧ p.2 <= (center c).2)%R
  | BottomRight => ((center c).1 <= p.1 ∧ (center c).2 <= p.2)%R
  | BottomLeft => (p.1 <= (center c).1 ∧ (center c).2 <= p.2)%R
  | TopLeft => (p.1 <= (center c).1 ∧ p.2 <= (center c).2)%R
  end.

Definition at_radius (c : Corner) (p : point) : Prop :=
  ((p.1 - (center c).1) * (p.1 - (center c).1) +
   (p.2 - (center c).2) * (p.2 - (center c).2) =
   IZR radius * IZR radius)%R.

Definition on_corner_arc (c : Corner) (p : point) : Prop :=
  at_radius c p ∧ in_outer_quadrant c p.

Definition on_boundary (p : point) : Prop :=
  on_side p ∨ ∃ c, on_corner_arc c p.
End rounded_rectangle.

Lemma elem_of_range_up (a b i : Z) : i ∈ range a b 1 ↔ (a ≤ i < b)%Z.
Proof.
  unfold range. simpl. rewrite list_elem_of_fmap.
  setoid_rewrite elem_of_seq. split.
  - intros (k & -> & _ & Hk). rewrite Z.div_1_r in Hk. lia.
  - intros Hi. exists (Z.to_nat (i - a)). split; [lia|].
    split; [lia|]. rewrite Z.div_1_r. lia.
Qed.

Lemma elem_of_range_down (a b i : Z) : i ∈ range a b (-1) ↔ (b < i ≤ a)%Z.
Proof.
  unfold range. simpl. rewrite list_elem_of_fmap.
  setoid_rewrite elem_of_seq. split.
  - intros (k & -> & _ & Hk). rewrite Z.div_1_r in Hk. lia.
  - intros Hi. exists (Z.to_nat (a - i)). split; [lia|].
    split; [lia|]. rewrite Z.div_1_r. lia.
Qed.

(** The arcs are sampled every five degrees. *)
Lemma arc_angles :
  range 0 91 5 = (λ k, 5 * Z.of_nat k)%Z <$> seq 0 19 ∧
  range 90 181 5 = (λ k, 90 + 5 * Z.of_nat k)%Z <$> seq 0 19 ∧
  range 180 271 5 = (λ k, 180 + 5 * Z.of_nat k)%Z <$> seq 0 19 ∧
  range 270 361 5 = (λ k, 270 + 5 * Z.of_nat k)%Z <$> seq 0 19.
Proof. by vm_compute. Qed.

Lemma arc_point_at_radius (cx cy r a : R) :
  ((cx + r * cos a - cx) * (cx + r * cos a - cx) +
   (cy - r * sin a - cy) * (cy - r * sin a - cy) = r * r)%R.
Proof.
  pose proof (sin2_cos2 a) as Hsc. unfold Rsqr in Hsc. nra.
Qed.

(** What the eight loops do achieve: the side points lie on the sides, and
    every arc point is at distance [radius] from the centre of its corner. *)
Lemma border_sides_on_sides (x1 y1 x2 y2 radius : Z) (p : point) :
  p ∈ top_side x1 y1 x2 radius ++ right_side y1 x2 y2 radius ++
      bottom_side x1 x2 y2 radius ++ left_side x1 y1 y2 radius →
  on_side x1 y1 x2 y2 radius p.
Proof.
  rewrite !elem_of_app. unfold top_side, right_side, bottom_side, left_side.
  rewrite !list_elem_of_fmap. unfold on_side.
  intros [(i & -> & Hi)|[(i & -> & Hi)|[(i & -> & Hi)|(i & -> & Hi)]]];
    [apply elem_of_range_up in Hi | apply elem_of_range_up in Hi
    |apply elem_of_range_down in Hi | apply elem_of_range_down in Hi];
    simpl.
  - left. split; [done|]. split; apply IZR_le; lia.
  - right; left. split; [done|]. split; apply IZR_le; lia.
  - right; right; left. split; [done|]. split; apply IZR_le; lia.
  - right; right; right. split; [done|]. split; apply IZR_le; lia.
Qed.

Lemma border_arcs_at_radius (x1 y1 x2 y2 radius : Z) (p : point) :
  (p ∈ right_top_arc y1 x2 radius → at_radius x1 y1 x2 y2 radius TopRight p) ∧
  (p ∈ right_bottom_arc x2 y2 radius →
     at_radius x1 y1 x2 y2 radius BottomRight p) ∧
  (p ∈ left_bottom_arc x1 y2 radius →
     at_radius x1 y1 x2 y2 radius BottomLeft p) ∧
  (p ∈ left_top_arc x1 y1 radius → at_radius x1 y1 x2 y2 radius TopLeft p).
Proof.
  unfold right_top_arc, right_bottom_arc, left_bottom_arc, left_top_arc,
    at_radius.
  rewrite !list_elem_of_fmap.
  split_and!; intros (a & -> & _); simpl; apply arc_point_at_radius.
Qed.

Lemma radians_bounds (lo hi angle : Z) :
  (lo ≤ angle ≤ hi)%Z →
  (IZR lo * PI / 180 <= radians angle <= IZR hi * PI / 180)%R.
Proof.
  intros [Hlo%IZR_le Hhi%IZR_le]. unfold radians.
  pose proof PI_RGT_0. split; nra.
Qed.

(** The top right and the bottom left arcs face outwards. *)
Lemma border_outer_arcs (x1 y1 x2 y2 radius : Z) (p : point) :
  (0 ≤ radius)%Z →
  (p ∈ right_top_arc y1 x2 radius →
     in_outer_quadrant x1 y1 x2 y2 radius TopRight p) ∧
  (p ∈ left_bottom_arc x1 y2 radius →
     in_outer_quadrant x1 y1 x2 y2 radius BottomLeft p).
Proof.
  intros Hr%IZR_le. destruct arc_angles as (Ha1 & _ & Ha3 & _).
  unfold right_top_arc, left_bottom_arc. rewrite Ha1, Ha3.
  rewrite !list_elem_of_fmap. pose proof PI_RGT_0 as Hpi.
  split.
  - intros (a & -> & (k & -> & [_ Hk]%elem_of_seq)%list_elem_of_fmap).
    simpl.
    destruct (radians_bounds 0 90 (5 * Z.of_nat k)) as [Hlo Hhi]; [lia|].
    assert (0 <= cos (radians (5 * Z.of_nat k)))%R
      by (apply cos_ge_0; lra).
    assert (0 <= sin (radians (5 * Z.of_nat k)))%R
      by (apply sin_ge_0; lra).
    split; nra.
  - intros (a & -> & (k & -> & [_ Hk]%elem_of_seq)%list_elem_of_fmap).
    simpl.
    destruct (radians_bounds 180 270 (180 + 5 * Z.of_nat k)) as [Hlo Hhi];
      [lia|].
    assert (cos (radians (180 + 5 * Z.of_nat k)) <= 0)%R
      by (apply cos_le_0; lra).
    assert (sin (radians (180 + 5 * Z.of_nat k)) <= 0)%R
      by (apply sin_le_0; lra).
    split; nra.
Qed.

(** The other two arcs face into the rectangle: the loop for the bottom
    right corner samples the quarter towards the top left of its circle,
    the loop for the top left corner the quarter towards the bottom
    right. *)
Lemma border_inner_arcs (x1 y1 x2 y2 radius : Z) (p : point) :
  (0 ≤ radius)%Z →
  (p ∈ right_bottom_arc x2 y2 radius →
     (p.1 <= (center x1 y1 x2 y2 radius BottomRight).1 ∧
      p.2 <= (center x1 y1 x2 y2 radius BottomRight).2)%R) ∧
  (p ∈ left_top_arc x1 y1 radius →
     ((center x1 y1 x2 y2 radius TopLeft).1 <= p.1 ∧
      (center x1 y1 x2 y2 radius TopLeft).2 <= p.2)%R).
Proof.
  intros Hr%IZR_le. destruct arc_angles as (_ & Ha2 & _ & Ha4).
  unfold right_bottom_arc, left_top_arc. rewrite Ha2, Ha4.
  rewrite !list_elem_of_fmap. pose proof PI_RGT_0 as Hpi.
  split.
  - intros (a & -> & (k & -> & [_ Hk]%elem_of_seq)%list_elem_of_fmap).
    simpl.
    destruct (radians_bounds 90 180 (90 + 5 * Z.of_nat k)) as [Hlo Hhi];
      [lia|].
    assert (cos (radians (90 + 5 * Z.of_nat k)) <= 0)%R
      by (apply cos_le_0; lra).
    assert (0 <= sin (radians (90 + 5 * Z.of_nat k)))%R
      by (apply sin_ge_0; lra).
    split; nra.
  - intros (a & -> & (k & -> & [_ Hk]%elem_of_seq)%list_elem_of_fmap).
    simpl.
    destruct (radians_bounds 270 360 (270 + 5 * Z.of_nat k)) as [Hlo Hhi];
      [lia|].
    assert (0 <= cos (radians (270 + 5 * Z.of_nat k)))%R.
    { rewrite <-cos_neg, <-(cos_period _ 1). apply cos_ge_0; simpl; lra. }
    assert (sin (radians (270 + 5 * Z.of_nat k)) <= 0)%R
      by (apply sin_le_0; lra).
    split; nra.
Qed.

Ltac izr :=
  repeat match goal with
    | H : _ ∧ _ |- _ => destruct H
    | H : context [IZR (?a - ?b)] |- _ => rewrite (minus_IZR a b) in H
    | H : context [IZR (?a + ?b)] |- _ => rewrite (plus_IZR a b) in H
    | |- context [IZR (?a - ?b)] => rewrite (minus_IZR a b)
    | |- context [IZR (?a + ?b)] => rewrite (plus_IZR a b)
    end.

Lemma radians_90 : radians 90 = (PI / 2)%R.
Proof. unfold radians. lra. Qed.

Lemma radians_270 : radians 270 = (3 * (PI / 2))%R.
Proof. unfold radians. lra. Qed.

(** C3, at the border the button draws: the first sample of the loop for
    the bottom right corner (90 degrees) and the first of the loop for the
    top left corner (270 degrees) are at distance [radius] from their
    centres, but on the inner side of them, and on no side and no
    outward quarter circle of the rounded rectangle. *)
Theorem border_arcs_leave_outline :
  let p := (416, 142)%R in
  let q := (34, 58)%R in
  border_points 10 10 440 190 24 !! 535 = Some p ∧
  p ∈ right_bottom_arc 440 190 24 ∧
  at_radius 10 10 440 190 24 BottomRight p ∧
  ¬ in_outer_quadrant 10 10 440 190 24 BottomRight p ∧
  ¬ on_boundary 10 10 440 190 24 p ∧
  border_points 10 10 440 190 24 !! 1089 = Some q ∧
  q ∈ left_top_arc 10 10 24 ∧
  at_radius 10 10 440 190 24 TopLeft q ∧
  ¬ in_outer_quadrant 10 10 440 190 24 TopLeft q ∧
  ¬ on_boundary 10 10 440 190 24 q.
Proof.
  assert (border_points 10 10 440 190 24 !! 535 = Some (416, 142)%R) as Hp.
  { change (border_points 10 10 440 190 24 !! 535) with
      (Some (IZR (440 - 24) + IZR 24 * cos (radians 90),
             IZR (190 - 24) - IZR 24 * sin (radians 90))%R).
    rewrite radians_90, cos_PI2, sin_PI2. do 2 f_equal; izr; lra. }
  assert (border_points 10 10 440 190 24 !! 1089 = Some (34, 58)%R) as Hq.
  { change (border_points 10 10 440 190 24 !! 1089) with
      (Some (IZR (10 + 24) + IZR 24 * cos (radians 270),
             IZR (10 + 24) - IZR 24 * sin (radians 270))%R).
    rewrite radians_270, cos_3PI2, sin_3PI2. do 2 f_equal; izr; lra. }
  assert ((416, 142)%R ∈ right_bottom_arc 440 190 24) as Hp'.
  { unfold right_bottom_arc. apply list_elem_of_fmap. exists 90%Z. split.
    - rewrite radians_90, cos_PI2, sin_PI2. f_equal; izr; lra.
    - apply list_elem_of_In. vm_compute. tauto. }
  assert ((34, 58)%R ∈ left_top_arc 10 10 24) as Hq'.
  { unfold left_top_arc. apply list_elem_of_fmap. exists 270%Z. split.
    - rewrite radians_270, cos_3PI2, sin_3PI2. f_equal; izr; lra.
    - apply list_elem_of_In. vm_compute. tauto. }
  simpl. split_and!; try done.
  - unfold at_radius. simpl. izr. lra.
  - unfold in_outer_quadrant. simpl. izr. lra.
  - unfold on_boundary, on_side, on_corner_arc, at_radius, in_outer_quadrant.
    simpl. clear.
    intros [[Hs|[Hs|[Hs|Hs]]]|[[] [Hd Hquad]]]; simpl in *; izr; lra.
  - unfold at_radius. simpl. izr. lra.
  - unfold in_outer_quadrant. simpl. izr. lra.
  - unfold on_boundary, on_side, on_corner_arc, at_radius, in_outer_quadrant.
    simpl. clear.
    intros [[Hs|[Hs|[Hs|Hs]]]|[[] [Hd Hquad]]]; simpl in *; izr; lra.
Qed.

(** ** The definitions at work on a small instance *)
Module demo.
Definition to_path (s : string) : Path := [s].

(** A library in which one file is not a mesh. *)
Definition heart : PyVista :=
  {| Mesh := string;
     pv_read p :=
       if String.eqb (name p) "corrupt.obj" then inl "not a mesh"
       else inr (name p);
     compute_normals m := inr m;
     add_mesh_error m := None;
     theme_property :=
       {| color_ := (1, 1, 1)%Q; ambient := 0; diffuse := 1;
          specular := 0; specular_power := 100; interpolation := Flat;
          opacity := 1; edge_visibility := false |};
     stem p := name p |}.

Definition fs : gmap Path node :=
  {[ [OBJ_FOLDER] :=
       Dir ["septum.obj"; "aorta.obj"; "notes.txt"; "corrupt.obj"] ]}.


Definition obj_files : list Path :=
  [[OBJ_FOLDER; "aorta.obj"]; [OBJ_FOLDER; "corrupt.obj"];
   [OBJ_FOLDER; "septum.obj"]].

Definition blank : @Viewer heart :=
  {| console := []; props := []; background := None; window_size := [];
     scene := ∅; slider_widgets := []; actors := []; meshes := [] |}.

Definition built : @Viewer heart :=
  (create_realistic_heart_viewer obj_files blank).2.
End demo.

(** ** The viewer script on a Windows folder *)
Module demo_windows.
(** [str.lower], on names written in ASCII. *)
Definition platform : Pathlib :=
  {| flavour := Windows; str_lower := lower_ascii |}.

(** A library in which a file can fail at each step of the loop. *)
Definition heart : PyVista :=
  {| Mesh := string;
     pv_read p :=
       if String.eqb (name p) "corrupt.obj" then inl "not a mesh"
       else if String.eqb (name p) "scans.obj" then inl "is a directory"
       else inr (name p);
     compute_normals m :=
       if String.eqb m "points.obj" then inl "no faces" else inr m;
     add_mesh_error m :=
       if String.eqb m "empty.obj" then Some "empty mesh" else None;
     theme_property := @theme_property demo.heart;
     stem p := name p |}.

(** Names in mixed case, a text file and a sub-directory named like a
    mesh file. *)
Definition fs : gmap Path node :=
  {[ [OBJ_FOLDER] :=
       Dir ["septum.obj"; "Aorta.OBJ"; "notes.txt"; "scans.obj"; "Valve.Obj"];
     [OBJ_FOLDER; "septum.obj"] := File;
     [OBJ_FOLDER; "Aorta.OBJ"] := File;
     [OBJ_FOLDER; "notes.txt"] := File;
     [OBJ_FOLDER; "scans.obj"] := Dir ["slice.png"];
     [OBJ_FOLDER; "Valve.Obj"] := File ]}.

Definition fs_without_meshes : gmap Path node :=
  {[ [OBJ_FOLDER] := Dir ["notes.txt"; "heart.object"];
     [OBJ_FOLDER; "notes.txt"] := File;
     [OBJ_FOLDER; "heart.object"] := File ]}.

Definition obj_files : list Path :=
  [[OBJ_FOLDER; "Aorta.OBJ"]; [OBJ_FOLDER; "scans.obj"];
   [OBJ_FOLDER; "septum.obj"]; [OBJ_FOLDER; "Valve.Obj"]].

(** A list on which each step of the loop fails once. *)
Definition hard_files : list Path :=
  [[OBJ_FOLDER; "Aorta.OBJ"]; [OBJ_FOLDER; "empty.obj"];
   [OBJ_FOLDER; "points.obj"]; [OBJ_FOLDER; "scans.obj"];
   [OBJ_FOLDER; "septum.obj"]].

Definition blank : @Viewer heart :=
  {| console := []; props := []; background := None; window_size := [];
     scene := ∅; slider_widgets := []; actors := []; meshes := [] |}.
End demo_windows.

(** The list returned can hold a directory: [scans.obj] is one. *)
Lemma load_obj_files_returns_directory :
  (@load_obj_files_on demo_windows.platform (list string) _ demo.to_path
     demo_windows.fs OBJ_FOLDER []).1 = Return demo_windows.obj_files ∧
  [OBJ_FOLDER; "scans.obj"] ∈ demo_windows.obj_files ∧
  demo_windows.fs !! [OBJ_FOLDER; "scans.obj"] = Some (Dir ["slice.png"]) ∧
  demo_windows.fs !! [OBJ_FOLDER; "scans.obj"] ≠ Some File.
Proof.
  split_and!.
  - by vm_compute.
  - apply (bool_decide_unpack _). by vm_compute.
  - by vm_compute.
  - by vm_compute.
Qed.

Lemma load_obj_files_sorted_entries_witness :
  (∀ p, p ∈ demo_windows.obj_files ↔
        ∃ n, n ∈ ["septum.obj"; "Aorta.OBJ"; "notes.txt"; "scans.obj";
                  "Valve.Obj"] ∧
             @obj_name demo_windows.platform n ∧
             p = joinpath (demo.to_path OBJ_FOLDER) n) ∧
  Sorted (not_after (@path_lt demo_windows.platform)) demo_windows.obj_files.
Proof.
  destruct (@load_obj_files_sorted_entries demo_windows.platform
              (list string) _ demo.to_path demo_windows.fs OBJ_FOLDER []
              (@load_obj_files_on demo_windows.platform (list string) _
                 demo.to_path demo_windows.fs OBJ_FOLDER []).2
              demo_windows.obj_files)
    as (entries & Hfs & Hin & _ & Hsorted & _).
  - by vm_compute.
  - assert (entries = ["septum.obj"; "Aorta.OBJ"; "notes.txt"; "scans.obj";
                       "Valve.Obj"]) as ->.
    { vm_compute in Hfs. by injection Hfs. }
    split; [exact Hin|exact Hsorted].
Defined.

Lemma startup_failures_witness :
  (@main demo_windows.heart demo_windows.platform demo.to_path (mret tt)
     ∅ demo_windows.blank).1 = SysExit 1 ∧
  (@main demo_windows.heart demo_windows.platform demo.to_path (mret tt)
     demo_windows.fs_without_meshes demo_windows.blank).1 = SysExit 1 ∧
  let v' :=
    (create_realistic_heart_viewer demo_windows.hard_files
       demo_windows.blank).2 in
  console v' !! 3 =
    Some "  ✗ Warning: Could not load empty.obj: empty mesh" ∧
  console v' !! 4 =
    Some "  ✗ Warning: Could not load points.obj: no faces" ∧
  console v' !! 5 =
    Some "  ✗ Warning: Could not load scans.obj: is a directory" ∧
  console v' !! 6 = Some "  ✓ Loaded: septum.obj" ∧
  4 ∈ @loaded_indices demo_windows.heart 0 demo_windows.hard_files.
Proof.
  destruct (@startup_failures demo_windows.heart demo_windows.platform
              demo.to_path (mret tt)) as (Hmissing & Hempty & Hskip).
  split_and!.
  - rewrite Hmissing; [done|]. by vm_compute.
  - rewrite (Hempty _ (Dir ["notes.txt"; "heart.object"]));
      [done|by vm_compute|].
    intros entries n [= <-] Hn Hobj%compile_pattern_obj.
    repeat (apply elem_of_cons in Hn as [->|Hn]; [by vm_compute in Hobj|]).
    by apply elem_of_nil in Hn.
  - cbv zeta.
    destruct (Hskip [[OBJ_FOLDER; "Aorta.OBJ"]] [OBJ_FOLDER; "empty.obj"]
                [[OBJ_FOLDER; "points.obj"]; [OBJ_FOLDER; "scans.obj"];
                 [OBJ_FOLDER; "septum.obj"]]
                "empty mesh" demo_windows.blank) as (Hempty_mesh & _).
    { right; right. exists "empty.obj", "empty.obj". by vm_compute. }
    destruct (Hskip [[OBJ_FOLDER; "Aorta.OBJ"]; [OBJ_FOLDER; "empty.obj"]]
                [OBJ_FOLDER; "points.obj"]
                [[OBJ_FOLDER; "scans.obj"]; [OBJ_FOLDER; "septum.obj"]]
                "no faces" demo_windows.blank) as (Hpoints & _).
    { right; left. exists "points.obj". by vm_compute. }
    destruct (Hskip [[OBJ_FOLDER; "Aorta.OBJ"]; [OBJ_FOLDER; "empty.obj"];
                     [OBJ_FOLDER; "points.obj"]]
                [OBJ_FOLDER; "scans.obj"] [[OBJ_FOLDER; "septum.obj"]]
                "is a directory" demo_windows.blank)
      as (Hscans & _ & Hrest & _).
    { left. by vm_compute. }
    destruct (Hrest 4 [OBJ_FOLDER; "septum.obj"] "septum.obj" "septum.obj")
      as [Hline Hactor]; [by vm_compute..|].
    split_and!; [exact Hempty_mesh|exact Hpoints|exact Hscans|exact Hline|
                 exact Hactor].
Defined.


Lemma update_opacity_frame_witness :
  create_realistic_heart_viewer demo.obj_files demo.blank =
    (Return tt, demo.built) ∧
  props (slide 0 0.05 demo.built) =
    update_opacity (actors demo.built) 0.1 (props demo.built) ∧
  actors (slide 0 0.05 demo.built) = actors demo.built.
Proof.
  assert (create_realistic_heart_viewer demo.obj_files demo.blank =
          (Return tt, demo.built)) as Hrun by by vm_compute.
  split; [exact Hrun|].
  destruct (update_opacity_frame demo.obj_files demo.blank demo.built 0.05
              Hrun) as (s & value & _ & Hrng & _ & -> & _ & Hp & Ha & _).
  rewrite Hrng in Hp. split; [exact Hp|exact Ha].
Defined.

Lemma open_system_unknown_witness :
  open_system "Digestive System" "" gui_main = gui_main.
Proof. by apply open_system_unknown. Defined.

(** * Further properties of the code *)

(** ** More on [load_obj_files] *)
Section rank.
Context {A : Type} (lt : relation A) `{!RelDecision lt, !StrictOrder lt}.
Context `{!Transitive (not_after lt)}.

(** In a sorted list of elements that the order tells apart, an element
    stands at the number of elements below it. *)
Lemma sorted_lookup_rank (l : list A) (i : nat) (x : A) :
  (∀ y z, y ∈ l → z ∈ l → lt y z ∨ y = z ∨ lt z y) →
  Sorted (not_after lt) l → NoDup l → l !! i = Some x →
  length (filter (λ y, lt y x) l) = i.
Proof.
  intros Htri Hs%(Sorted_StronglySorted _) Hd. revert i.
  induction Hs as [|a l Hl IH Hall]; intros i Hi; [done|].
  apply NoDup_cons in Hd as [Ha Hd]. rewrite Forall_forall in Hall.
  destruct i as [|i]; simplify_eq/=.
  - rewrite filter_cons_False by apply (irreflexivity lt).
    apply length_zero_iff_nil, elem_of_nil_inv.
    intros y [Hy Hlt]%list_elem_of_filter. by apply (Hall y).
  - assert (x ∈ l) as Hx by by eapply list_elem_of_lookup_2.
    rewrite filter_cons_True.
    + simpl. f_equal. apply IH; [|done..].
      intros y z Hy Hz. apply Htri; by right.
    + destruct (Htri a x) as [?|[->|?]]; [by left|by right|done..|].
      by destruct (Hall x Hx).
Qed.

(** The order in which such elements come in does not matter. *)
Lemma sorted_Permutation_eq_on (l1 l2 : list A) :
  (∀ y z, y ∈ l1 → z ∈ l1 → lt y z ∨ y = z ∨ lt z y) →
  l1 ≡ₚ l2 → sorted lt l1 = sorted lt l2.
Proof.
  intros Htri Hp.
  apply (Sorted_unique_strong (not_after lt)); [|apply sorted_Sorted; done..|].
  - intros y z Hy Hz Hyz Hzy.
    rewrite sorted_Permutation in Hy. rewrite sorted_Permutation, <-Hp in Hz.
    by destruct (Htri y z Hy Hz) as [?|[?|?]].
  - by rewrite !sorted_Permutation.
Qed.
End rank.

Lemma length_filter_fmap {A B} (f : A → B) (P : B → Prop)
    `{!∀ y, Decision (P y)} (l : list A) :
  length (filter P (f <$> l)) = length (filter (λ x, P (f x)) l).
Proof.
  induction l as [|x l IH]; [done|]. rewrite fmap_cons, !filter_cons.
  case_decide; simpl; by rewrite IH.
Qed.

#[global] Instance joinpath_inj (folder : Path) : Inj (=) (=) (joinpath folder).
Proof.
  intros m n Heq. unfold joinpath in Heq.
  apply (inj (app folder)) in Heq. by simplify_eq.
Qed.

(** Paths below one folder compare as their names do. *)
Lemma joinpath_lexico (folder : Path) (m n : string) :
  lexico (joinpath folder m) (joinpath folder n) ↔ lexico m n.
Proof.
  unfold joinpath. induction folder as [|x folder IH]; simpl.
  - unfold lexico at 1, list_lexico, lexico at 1, prod_lexico. simpl.
    split; [intros [?|[_ []]]; done|by left].
  - unfold lexico at 1, list_lexico. fold (@list_lexico string _).
    unfold lexico at 1, prod_lexico. simpl. rewrite <-IH. split.
    + intros [Hx|[_ ?]]; [|done]. by apply (irreflexivity lexico) in Hx.
    + intros ?. by right.
Qed.

Section load_more.
Context `{Pathlib} `{Console St} (to_path : string → Path).

Lemma path_lt_joinpath (folder : Path) (m n : string) :
  path_lt (joinpath folder m) (joinpath folder n) ↔
  lexico (casefold m) (casefold n).
Proof.
  unfold path_lt, joinpath. rewrite !fmap_app. simpl.
  apply (joinpath_lexico (casefold <$> folder)).
Qed.

#[local] Instance not_after_path_lt_trans : Transitive (not_after path_lt).
Proof.
  intros p q r. unfold not_after, path_lt.
  apply (not_after_trans lexico).
Qed.

(** Names that pairwise differ by more than letter case give paths that
    the path order tells apart. *)
Lemma glob_on_trichotomy (fs : gmap Path node) (folder : Path)
    (entries : list string) (pattern : string) (p q : Path) :
  fs !! folder = Some (Dir entries) →
  (∀ m n, m ∈ entries → n ∈ entries → casefold m = casefold n → m = n) →
  p ∈ glob_on fs folder pattern → q ∈ glob_on fs folder pattern →
  path_lt p q ∨ p = q ∨ path_lt q p.
Proof.
  intros Hfs Hcase. unfold glob_on. rewrite Hfs.
  intros (m & -> & [_ Hm]%list_elem_of_filter)%list_elem_of_fmap
         (n & -> & [_ Hn]%list_elem_of_filter)%list_elem_of_fmap.
  rewrite !path_lt_joinpath.
  destruct (trichotomy lexico (casefold m) (casefold n)) as [?|[Heq|?]];
    [by left| |by right; right].
  right; left. f_equal. by apply Hcase.
Qed.

(** X1 (load_obj_files): the call ends in one of two ways.  It returns,
    and then with a list that is not empty, exactly when the folder is a
    directory holding at least one name that matches ["*.obj"] as the
    platform matches it; otherwise it leaves the process with status 1.
    A path that exists but is a plain file is reported as holding no
    [.obj] files, not as missing. *)
Theorem load_obj_files_outcome (fs : gmap Path node) (folder_path : string)
    (st : St) :
  let r := load_obj_files_on to_path fs folder_path st in
  ((∃ obj_files, r.1 = Return obj_files ∧ obj_files ≠ []) ∨
   r.1 = SysExit 1) ∧
  ((∃ obj_files, r.1 = Return obj_files) ↔
   ∃ entries n, fs !! to_path folder_path = Some (Dir entries) ∧
                n ∈ entries ∧ obj_name n) ∧
  (fs !! to_path folder_path = Some File →
   r = (SysExit 1,
        put_line ("Error: No .obj files found in '" +:+ folder_path +:+ "'!")
          st)).
Proof.
  cbv zeta. rewrite load_obj_files_on_eq. unfold exists_.
  destruct (fs !! to_path folder_path) as [[|entries]|] eqn:Hfs.
  - rewrite bool_decide_eq_true_2 by done. simpl.
    assert (glob_on fs (to_path folder_path) "*.obj" = []) as ->
      by (unfold glob_on; by rewrite Hfs).
    simpl. split_and!; [by right| |done].
    split; [by intros [? ?]|by intros (? & ? & ? & _)].
  - rewrite bool_decide_eq_true_2 by done. simpl.
    case_bool_decide as Hnil; simpl.
    + split_and!; [by right| |done].
      split; [by intros [? ?]|]. intros (e & n & [= <-] & Hn & Hobj).
      apply (proj1 (sorted_path_lt_nil _)) in Hnil.
      assert (joinpath (to_path folder_path) n ∈
              glob_on fs (to_path folder_path) "*.obj") as Hin
        by (apply (elem_of_glob_on_obj _ _ entries); eauto).
      rewrite Hnil in Hin. by apply elem_of_nil in Hin.
    + split_and!; [left; eauto| |done].
      split; [|eauto]. intros _.
      destruct (sorted path_lt (glob_on fs (to_path folder_path) "*.obj"))
        as [|p ps] eqn:Hs; [done|].
      assert (p ∈ sorted path_lt (glob_on fs (to_path folder_path) "*.obj"))
        as Hp by (rewrite Hs; by left).
      rewrite sorted_Permutation in Hp.
      apply (elem_of_glob_on_obj _ _ entries) in Hp as (n & ? & ? & _); eauto.
  - rewrite bool_decide_eq_false_2 by by intros [? ?]. simpl.
    split_and!; [by right| |done].
    split; [by intros [? ?]|by intros (? & ? & ? & _)].
Qed.

(** X2 (load_obj_files): only the names that match ["*.obj"] matter.  Two
    directories that hold the same such names, whatever else they hold
    and in whatever order they are enumerated, give the same list and the
    same output, provided no two of the names differ by letter case alone
    where paths are compared without it. *)
Theorem load_obj_files_other_entries (fs1 fs2 : gmap Path node)
    (folder_path : string) (entries1 entries2 : list string) (st : St) :
  fs1 !! to_path folder_path = Some (Dir entries1) →
  fs2 !! to_path folder_path = Some (Dir entries2) →
  NoDup entries1 → NoDup entries2 →
  (∀ m n, m ∈ entries1 → n ∈ entries1 → casefold m = casefold n → m = n) →
  (∀ n, obj_name n → n ∈ entries1 ↔ n ∈ entries2) →
  load_obj_files_on to_path fs1 folder_path st =
  load_obj_files_on to_path fs2 folder_path st.
Proof.
  intros H1 H2 Hd1 Hd2 Hcase Hsame. rewrite !load_obj_files_on_eq.
  unfold exists_. rewrite H1, H2. simpl.
  assert (glob_on fs1 (to_path folder_path) "*.obj" ≡ₚ
          glob_on fs2 (to_path folder_path) "*.obj") as Hp.
  { unfold glob_on. rewrite H1, H2. apply fmap_Permutation.
    apply NoDup_Permutation; [by apply NoDup_filter..|].
    intros n. rewrite !list_elem_of_filter, compile_pattern_obj.
    split; intros [Hobj Hn]; (split; [done|]); by apply (Hsame n Hobj). }
  rewrite (sorted_Permutation_eq_on path_lt _ _
             (λ p q, glob_on_trichotomy fs1 _ entries1 _ p q H1 Hcase) Hp).
  done.
Qed.

(** X3 (load_obj_files): a file's index in the list returned is the number
    of names matching ["*.obj"] in the directory that sort before its own
    name, each taken as the platform compares it; since the viewer colours
    by index, adding or removing such a name shifts the colours of all
    files that sort after it. *)
Theorem load_obj_files_index_is_rank (fs : gmap Path node)
    (folder_path : string) (entries : list string) (st st' : St)
    (obj_files : list Path) (i : nat) (n : string) :
  fs !! to_path folder_path = Some (Dir entries) →
  NoDup entries →
  (∀ m n, m ∈ entries → n ∈ entries → casefold m = casefold n → m = n) →
  load_obj_files_on to_path fs folder_path st = (Return obj_files, st') →
  obj_files !! i = Some (joinpath (to_path folder_path) n) →
  i = length (filter (λ m, lexico (casefold m) (casefold n) ∧
                           compile_pattern "*.obj" m = true) entries).
Proof.
  intros Hfs Hd Hcase. rewrite load_obj_files_on_eq. unfold exists_.
  rewrite Hfs. rewrite bool_decide_eq_true_2 by done. simpl.
  case_bool_decide; [done|]. intros [= <- _] Hi.
  apply (sorted_lookup_rank path_lt) in Hi.
  - rewrite <-Hi, sorted_Permutation. unfold glob_on. rewrite Hfs.
    rewrite length_filter_fmap, list_filter_filter. f_equal.
    apply list_filter_iff. intros m. by rewrite path_lt_joinpath.
  - intros p q Hp Hq. rewrite sorted_Permutation in Hp, Hq.
    by eapply glob_on_trichotomy.
  - apply sorted_Sorted; apply _.
  - rewrite sorted_Permutation. unfold glob_on. rewrite Hfs.
    apply NoDup_fmap_2; [apply _|]. by apply NoDup_filter.
Qed.
End load_more.

(** X4 (load_obj_files): on success the call makes four [print] calls more
    than it returns files, and what they print is: an empty line and a
    rule, the count, a rule, one line per file in the order returned,
    numbered from 1 in a field of width two, and a closing rule followed
    by an empty line. *)
Theorem load_obj_files_listing `{Pathlib} (to_path : string → Path)
    (fs : gmap Path node) (folder_path : string) (out out' : list string)
    (obj_files : list Path) :
  load_obj_files_on to_path fs folder_path out = (Return obj_files, out') →
  out' =
    out ++
    [nl +:+ rule;
     "Found " +:+ pretty (length obj_files) +:+ " .obj files:";
     rule] ++
    imap (λ k obj_file, "  " +:+ fmt_2d (S k) +:+ ". " +:+ name obj_file)
      obj_files ++
    [rule +:+ nl] ∧
  length out' = length out + length obj_files + 4.
Proof.
  intros Hrun.
  assert (out' = out ++ listing_lines obj_files) as ->.
  { rewrite load_obj_files_on_eq in Hrun. destruct (negb _); [done|].
    cbv zeta in Hrun. case_bool_decide; [done|].
    rewrite put_lines_list in Hrun. by simplify_eq. }
  unfold listing_lines, enumerate. rewrite fmap_imap. split.
  - done.
  - rewrite !length_app, length_imap. simpl. lia.
Qed.

(** ** More on the viewer *)
Section viewer_more.
Context `{PyVista}.

Lemma loaded_indices_nil (idx : nat) (obj_files : list Path) :
  loaded_indices idx obj_files = [] ↔
  ∀ f, f ∈ obj_files → ∀ m, attempt f ≠ inr m.
Proof.
  revert idx. induction obj_files as [|g rest IH]; intros idx; simpl.
  - split; [|done]. by intros _ f ?%elem_of_nil.
  - destruct (attempt g) as [[e ms]|m] eqn:Hg.
    + rewrite IH. split.
      * intros Hrest f [->|?]%elem_of_cons; [congruence|eauto].
      * intros Hall f Hf. apply Hall, elem_of_cons. by right.
    + split; [done|]. intros Hall. destruct (Hall g) with m; [|done].
      apply elem_of_cons. by left.
Qed.

Lemma loaded_indices_read (idx : nat) (obj_files : list Path) :
  length (loaded_indices idx obj_files) ≤ length (omap read_mesh obj_files).
Proof.
  revert idx. induction obj_files as [|f rest IH]; intros idx; [done|].
  specialize (IH (S idx)).
  change (omap read_mesh (f :: rest)) with
    (match read_mesh f with
     | Some y => y :: omap read_mesh rest
     | None => omap read_mesh rest
     end).
  change (loaded_indices idx (f :: rest)) with
    (match attempt f with
     | inr _ => idx :: loaded_indices (S idx) rest
     | inl _ => loaded_indices (S idx) rest
     end).
  unfold attempt. unfold read_mesh at 1.
  destruct (pv_read f) as [e|m]; [done|].
  destruct (compute_normals m) as [e|m']; [cbn [length]; lia|].
  destruct (add_mesh_error m'); cbn [length]; lia.
Qed.

Lemma load_loop_scene_none (idx : nat) (obj_files : list Path) (v : Viewer) :
  loaded_indices idx obj_files = [] →
  scene (load_loop idx obj_files v) = scene v.
Proof.
  revert idx v. induction obj_files as [|f rest IH]; intros idx v; [done|].
  simpl. unfold step. destruct (attempt f) as [[e ms]|m]; [|done].
  intros Hrest. by rewrite IH.
Qed.

(** X5 (create_realistic_heart_viewer): the call leaves the process, with
    status 1, exactly when none of the files can be read, given normals
    and plotted, so in particular on an empty list.  It has then printed
    one warning per file, a rule and the error line, and has made no
    actor. *)
Theorem create_realistic_heart_viewer_exit (obj_files : list Path)
    (v : Viewer) :
  let r := create_realistic_heart_viewer obj_files v in
  (r.1 = SysExit 1 ↔
   ∀ f m m', f ∈ obj_files → pv_read f = inr m →
             compute_normals m = inr m' → add_mesh_error m' ≠ None) ∧
  (r.1 = SysExit 1 →
   console r.2 =
     console v ++ ["Loading and rendering heart model..."; rule] ++
     (report <$> obj_files) ++
     [rule; "Error: No meshes were successfully loaded!"] ∧
   actors r.2 = [] ∧ props r.2 = props v ∧ scene r.2 = ∅) ∧
  (create_realistic_heart_viewer [] v).1 = SysExit 1.
Proof.
  cbv zeta.
  assert ((create_realistic_heart_viewer obj_files v).1 = SysExit 1 ↔
          loaded_indices 0 obj_files = []) as Hexit.
  { rewrite create_realistic_heart_viewer_eq. cbv zeta.
    rewrite load_loop_actors. simpl.
    case_bool_decide as Hnil; simpl.
    - split; [|done]. intros _.
      apply length_zero_iff_nil in Hnil. rewrite length_seq in Hnil.
      by apply length_zero_iff_nil.
    - split; [done|]. intros Hli. by rewrite Hli in Hnil. }
  split_and!; [| |done].
  - rewrite Hexit, loaded_indices_nil. split.
    + intros Hnone f m m' Hf Hr Hn Ha. apply (Hnone f Hf m).
      apply attempt_inr. eauto.
    + intros Hnone f Hf m (Hr & m' & Hn & Ha)%attempt_inr.
      by apply (Hnone f m m').
  - intros Hli%Hexit.
    destruct (created_actors obj_files v) as (Hp & Ha & _).
    destruct (create_realistic_heart_viewer_scene obj_files v)
      as (_ & _ & Hs).
    cbv zeta in Hp, Ha, Hs. rewrite Hp, Ha, Hs, Hli. simpl.
    rewrite app_nil_r, load_loop_scene_none by done.
    split_and!; try done.
    rewrite create_realistic_heart_viewer_eq. cbv zeta.
    rewrite load_loop_actors, Hli. simpl.
    rewrite load_loop_console. simpl. by rewrite <-!app_assoc.
Qed.

(** X6 (create_realistic_heart_viewer): the list [meshes] holds, in order,
    the mesh of every file that could be read, as it was read (before
    normals are computed) and also when a later step failed for it; so it
    can be longer than [actors], never shorter. *)
Theorem meshes_are_the_files_read (obj_files : list Path) (v : Viewer) :
  let v' := (create_realistic_heart_viewer obj_files v).2 in
  meshes v' = omap read_mesh obj_files ∧
  length (actors v') ≤ length (meshes v') ∧
  length (meshes v') ≤ length obj_files.
Proof.
  cbv zeta.
  destruct (created_meshes_console obj_files v) as [-> _].
  destruct (created_actors obj_files v) as (_ & -> & _).
  rewrite load_loop_meshes. simpl. split_and!; [done| |].
  - rewrite length_seq. apply loaded_indices_read.
  - clear. induction obj_files as [|f rest IH]; [done|].
    change (omap read_mesh (f :: rest)) with
      (match read_mesh f with
       | Some y => y :: omap read_mesh rest
       | None => omap read_mesh rest
       end).
    destruct (read_mesh f); cbn [length]; lia.
Qed.

(** X7 (create_realistic_heart_viewer): after its two heading lines the
    call prints exactly one line per file, in the order of the list: the
    check mark and the name when the file loaded, else the warning with
    the name and the text of the exception; then a rule and one closing
    line. *)
Theorem one_report_per_file (obj_files : list Path) (v : Viewer) :
  let v' := (create_realistic_heart_viewer obj_files v).2 in
  ∃ closing,
    console v' =
      console v ++ ["Loading and rendering heart model..."; rule] ++
      (report <$> obj_files) ++ [rule; closing] ∧
    ∀ k f, obj_files !! k = Some f →
      console v' !! (length (console v) + 2 + k) =
      Some (match attempt f with
            | inr _ => "  ✓ Loaded: " +:+ name f
            | inl (e, _) =>
                "  ✗ Warning: Could not load " +:+ name f +:+ ": " +:+ e
            end).
Proof.
  cbv zeta.
  destruct (created_meshes_console obj_files v) as [_ [closing Hc]].
  rewrite load_loop_console in Hc. simpl in Hc.
  exists closing. rewrite Hc. split.
  - by rewrite <-!app_assoc.
  - intros k f Hk. rewrite <-!app_assoc.
    rewrite lookup_app_r by lia.
    replace (length (console v) + 2 + k - length (console v)) with (2 + k)
      by lia.
    simpl. rewrite lookup_app_l.
    + by rewrite list_lookup_fmap, Hk.
    + rewrite length_fmap. by eapply lookup_lt_Some.
Qed.
End viewer_more.

Section viewer_scene.
Context `{PyVista}.

Lemma load_loop_app (idx : nat) (pre post : list Path) (v : Viewer) :
  load_loop idx (pre ++ post) v =
  load_loop (idx + length pre) post (load_loop idx pre v).
Proof.
  revert idx v. induction pre as [|f pre IH]; intros idx v; simpl.
  - by rewrite Nat.add_0_r.
  - rewrite IH. f_equal. lia.
Qed.

Lemma loaded_indices_app (idx : nat) (pre post : list Path) :
  loaded_indices idx (pre ++ post) =
  loaded_indices idx pre ++ loaded_indices (idx + length pre) post.
Proof.
  revert idx. induction pre as [|f pre IH]; intros idx; simpl.
  - by rewrite Nat.add_0_r.
  - rewrite IH. replace (S idx + length pre) with (idx + S (length pre))
      by lia.
    by destruct (attempt f).
Qed.

Lemma load_loop_scene_other (idx : nat) (obj_files : list Path) (v : Viewer)
    (nm : string) :
  nm ∉ stem <$> obj_files →
  scene (load_loop idx obj_files v) !! nm = scene v !! nm.
Proof.
  revert idx v. induction obj_files as [|f rest IH]; intros idx v Hnm;
    [done|].
  rewrite fmap_cons, not_elem_of_cons in Hnm. destruct Hnm as [Hf Hrest].
  simpl. rewrite IH by done. unfold step.
  destruct (attempt f) as [[e ms]|m]; simpl; [done|].
  by rewrite lookup_insert_ne.
Qed.

(** X8 (create_realistic_heart_viewer): the scene is keyed by file stem,
    and a later file replaces an earlier one of the same stem.  For a file
    that loads and whose stem no later file has, the scene entry under its
    stem is its own actor: the one at its place in [actors], carrying the
    colour of the file's index. *)
Theorem scene_entry_of_file (pre post : list Path) (f : Path)
    (m m' : Mesh) (v : Viewer) :
  pv_read f = inr m → compute_normals m = inr m' →
  add_mesh_error m' = None →
  stem f ∉ stem <$> post →
  let v' := (create_realistic_heart_viewer (pre ++ f :: post) v).2 in
  ∃ actor p,
    scene v' !! stem f = Some actor ∧
    actors v' !! length (loaded_indices 0 pre) = Some actor ∧
    props v' !! actor = Some p ∧
    ALL_COLORS !! (length pre `mod` 14) = Some (color_ p).
Proof.
  intros Hr Hn Ha Hpost. cbv zeta.
  assert (attempt f = inr m) as Hf by (apply attempt_inr; eauto).
  destruct (create_realistic_heart_viewer_scene (pre ++ f :: post) v)
    as (Hp & Hacts & Hs). cbv zeta in Hp, Hacts, Hs.
  rewrite Hp, Hacts, Hs. clear Hp Hacts Hs.
  rewrite load_loop_props, load_loop_actors. simpl.
  rewrite load_loop_app. simpl.
  rewrite load_loop_scene_other by done.
  rewrite loaded_indices_app. simpl. rewrite Hf.
  unfold step. rewrite Hf. simpl. rewrite lookup_insert_eq.
  rewrite load_loop_props. simpl. rewrite length_app, length_fmap.
  eexists _, _. split_and!.
  - done.
  - apply lookup_seq. split; [done|]. rewrite length_app. simpl. lia.
  - rewrite lookup_app_r by lia.
    replace (length (props v) + length (loaded_indices 0 pre)
             - length (props v)) with (length (loaded_indices 0 pre)) by lia.
    rewrite list_lookup_fmap, lookup_app_r by lia.
    rewrite Nat.sub_diag. done.
  - simpl. pose proof (palette_lookup (length pre)) as Hpal.
    rewrite ALL_COLORS_length in Hpal. exact Hpal.
Qed.

(** X9 (apply_realistic_material): the call cannot fail (every key it
    reads is in [LIGHTING_CONFIG]); it overwrites colour, lighting,
    shading and opacity of the one actor whatever they were, so that of
    two calls the later one decides; and it leaves every other actor, and
    everything when the handle is no actor, untouched. *)
Theorem apply_realistic_material_overrides (actor : nat) (c1 c2 : color)
    (v : Viewer) :
  let v1 := (apply_realistic_material actor c1 v).2 in
  (apply_realistic_material actor c1 v).1 = Return tt ∧
  (apply_realistic_material actor c1 ≫=
     λ _, apply_realistic_material actor c2) v =
    apply_realistic_material actor c2 v ∧
  (∀ p, props v !! actor = Some p →
        props v1 !! actor =
        Some {| color_ := c1; ambient := 0.35; diffuse := 0.65;
                specular := 0.15; specular_power := 8;
                interpolation := Phong; opacity := 1.0;
                edge_visibility := edge_visibility p |}) ∧
  (∀ j, j ≠ actor → props v1 !! j = props v !! j) ∧
  (length (props v) ≤ actor → v1 = v).
Proof.
  cbv zeta. unfold mbind, IO_bind, bind.
  rewrite !apply_realistic_material_eq. simpl. split_and!.
  - done.
  - by rewrite list_alter_alter_eq.
  - intros p Hp. by rewrite list_lookup_alter_eq, Hp.
  - intros j Hj. by rewrite list_lookup_alter_ne.
  - intros Hge. destruct v. unfold set_props. simpl in *. f_equal.
    apply list_eq. intros j. destruct (decide (actor = j)) as [<-|Hne].
    + rewrite list_lookup_alter_eq.
      by rewrite (lookup_ge_None_2 _ actor) by done.
    + by rewrite list_lookup_alter_ne.
Qed.

Lemma update_opacity_overwrite (acts1 acts2 : list nat) (value1 value2 : Q)
    (ps : list Property) :
  (∀ actor, actor ∈ acts1 ↔ actor ∈ acts2) →
  update_opacity acts2 value2 (update_opacity acts1 value1 ps) =
  update_opacity acts1 value2 ps.
Proof.
  intros Hsame. apply list_eq. intros i.
  rewrite !update_opacity_lookup.
  destruct (decide (i ∈ acts1)) as [H1|H1],
    (decide (i ∈ acts2)) as [H2|H2]; try (by destruct (ps !! i)).
  - destruct H2. by apply Hsame.
  - destruct H1. by apply Hsame.
Qed.

(** X10 (update_opacity): only the set of handles in [actors] matters,
    not their order or repetitions, and of two calls the later value
    stands: calling it again replaces the opacity, it does not combine
    with the earlier one. *)
Theorem update_opacity_last_wins (acts1 acts2 : list nat) (value1 value2 : Q)
    (ps : list Property) :
  (∀ actor, actor ∈ acts1 ↔ actor ∈ acts2) →
  update_opacity acts2 value2 (update_opacity acts1 value1 ps) =
  update_opacity acts1 value2 ps.
Proof. apply update_opacity_overwrite. Qed.
End viewer_scene.

(** The user drags the opacity slider again and again. *)
Definition slides `{PyVista} (raws : list Q) (v : Viewer) : Viewer :=
  foldl (λ v raw, slide 0 raw v) v raws.

Section slider_more.
Context `{PyVista}.

Lemma slide_opacity_slider (acts : list nat) (raw value : Q) (v : Viewer) :
  slider_widgets v =
    [{| slider_callback := update_opacity acts; slider_rng := (0.1, 1.0)%Q;
        slider_value := value; slider_title := "Opacity" |}] →
  slider_widgets (slide 0 raw v) =
    [{| slider_callback := update_opacity acts; slider_rng := (0.1, 1.0)%Q;
        slider_value := clamp (0.1, 1.0)%Q raw;
        slider_title := "Opacity" |}] ∧
  props (slide 0 raw v) =
    update_opacity acts (clamp (0.1, 1.0)%Q raw) (props v) ∧
  actors (slide 0 raw v) = actors v ∧ scene (slide 0 raw v) = scene v ∧
  meshes (slide 0 raw v) = meshes v ∧ console (slide 0 raw v) = console v.
Proof. intros Hs. unfold slide. by rewrite Hs. Qed.

Lemma slides_opacity_slider (acts : list nat) (raws : list Q) (value : Q)
    (v : Viewer) :
  slider_widgets v =
    [{| slider_callback := update_opacity acts; slider_rng := (0.1, 1.0)%Q;
        slider_value := value; slider_title := "Opacity" |}] →
  slider_widgets (slides raws v) =
    [{| slider_callback := update_opacity acts; slider_rng := (0.1, 1.0)%Q;
        slider_value := from_option (clamp (0.1, 1.0)%Q) value (last raws);
        slider_title := "Opacity" |}] ∧
  props (slides raws v) =
    from_option (λ raw, update_opacity acts (clamp (0.1, 1.0)%Q raw) (props v))
      (props v) (last raws) ∧
  actors (slides raws v) = actors v ∧ scene (slides raws v) = scene v ∧
  meshes (slides raws v) = meshes v ∧ console (slides raws v) = console v.
Proof.
  intros Hs. induction raws as [|raw raws IH] using rev_ind; [done|].
  unfold slides in *. rewrite foldl_app. simpl. rewrite last_snoc. simpl.
  destruct IH as (Hs' & Hp & Ha & Hsc & Hm & Hc).
  destruct (slide_opacity_slider acts raw _ _ Hs')
    as (-> & -> & -> & -> & -> & ->).
  split_and!; try done.
  rewrite Hp. destruct (last raws); simpl; [|done].
  by apply update_opacity_overwrite.
Qed.

(** X11 (update_opacity, slider): however often and however far the
    slider is dragged, every actor keeps its colour and its lighting
    preset, its opacity stays between 0.1 and 1.0 (the minimum that keeps
    the parts visible), equal to the last value the slider took, and the
    actors, the scene and the meshes stay as built. *)
Theorem slider_keeps_parts_visible (obj_files : list Path) (v v' : Viewer)
    (raws : list Q) :
  create_realistic_heart_viewer obj_files v = (Return tt, v') →
  let v'' := slides raws v' in
  actors v'' = actors v' ∧ scene v'' = scene v' ∧ meshes v'' = meshes v' ∧
  ∀ actor, actor ∈ actors v' →
    ∃ p0 p, props v' !! actor = Some p0 ∧ props v'' !! actor = Some p ∧
      color_ p = color_ p0 ∧
      ambient p = 0.35%Q ∧ diffuse p = 0.65%Q ∧ specular p = 0.15%Q ∧
      specular_power p = 8%Q ∧ interpolation p = Phong ∧
      (0.1 <= opacity p <= 1.0)%Q ∧
      opacity p = from_option (clamp (0.1, 1.0)%Q) 1.0%Q (last raws).
Proof.
  intros Hrun. cbv zeta.
  assert (∀ actor, actor ∈ actors v' →
    ∃ i, props v' !! actor = Some (preset (palette i))) as Hall.
  { intros actor [k Hk]%list_elem_of_lookup.
    pose proof (created_actor_lookup obj_files v k actor) as Hlk.
    rewrite Hrun in Hlk. destruct (Hlk Hk) as (i & _ & Hp). eauto. }
  rewrite create_realistic_heart_viewer_eq in Hrun. cbv zeta in Hrun.
  case_bool_decide; [done|].
  destruct (load_loop_frame 0 obj_files (start v)) as (_ & _ & Hsl).
  simpl in Hsl.
  assert (slider_widgets v' =
    [{| slider_callback := update_opacity (actors v');
        slider_rng := (0.1, 1.0)%Q; slider_value := DEFAULT_OPACITY;
        slider_title := "Opacity" |}]) as Hs.
  { injection Hrun as <-. simpl. by rewrite Hsl. }
  clear Hrun Hsl.
  destruct (slides_opacity_slider (actors v') raws _ _ Hs)
    as (_ & Hp & -> & -> & -> & _).
  split_and!; try done.
  intros actor Hactor. destruct (Hall actor Hactor) as [i Hi].
  exists (preset (palette i)). rewrite Hp.
  destruct (last raws) as [raw|]; simpl.
  - rewrite update_opacity_lookup, decide_True, Hi by done. simpl.
    eexists. split_and!; try done.
    + by apply (clamp_range 0.1 1.0).
    + by apply (clamp_range 0.1 1.0).
  - rewrite Hi. eexists. split_and!; done.
Qed.
End slider_more.

(** ** More on the launcher *)

Lemma gui_inv_handle (ev : Event) (tk : Tk) :
  gui_inv tk → gui_inv (handle ev tk).
Proof.
  intros Hinv. unfold handle. destruct (running tk); [|done].
  destruct ev; [by apply gui_inv_on_release|by apply gui_inv_key_press].
Qed.

(** X12 (MedicalSystemsGUI.__init__, CardiacWindow.__init__): Escape is
    the only key with a binding.  However the launcher has been used, any
    other key, in any window, changes nothing. *)
Theorem only_escape_is_bound (events : list Event) (w : nat)
    (sequence : string) :
  sequence ≠ "<Escape>" →
  key_press w sequence (mainloop events gui_main) = mainloop events gui_main.
Proof.
  intros Hs.
  pose proof (gui_inv_mainloop events _ gui_inv_gui_main) as Hinv.
  unfold key_press.
  destruct (toplevels (mainloop events gui_main) !! w) as [t|] eqn:Hw;
    [|done].
  destruct (decide (w = root)) as [->|Hne].
  - destruct (inv_root _ Hinv) as (t0 & Ht0 & _ & Hb). simplify_eq.
    by rewrite Hb, lookup_singleton_ne.
  - destruct (inv_detail _ Hinv w t Hw Hne) as [_ Hb].
    by rewrite Hb, lookup_singleton_ne.
Qed.

Lemma handle_release_known (i : nat) (b : ModernButton) (cls : WindowClass)
    (tk : Tk) :
  gui_inv tk → running tk = true → buttons tk !! i = Some b →
  (text b, cls) ∈ system_windows →
  ∃ title,
    handle (ButtonRelease i) tk =
    set_next_id (S (next_id tk))
      (set_toplevels
         (<[next_id tk := escape_window cls title (next_id tk)]>
            (toplevels tk))
         (set_buttons (<[i := update_color (hover_color b) b]> (buttons tk))
            tk)).
Proof.
  intros Hinv Hrun Hb Hin. unfold handle, on_release. rewrite Hrun, Hb.
  pose proof (inv_buttons _ Hinv) as Hbtn.
  destruct (proj1 (Forall_lookup _ _) Hbtn i b Hb) as (e & ->). simpl.
  destruct (open_system_known (text b) e cls
              (set_buttons (<[i:=update_color (hover_color b) b]>
                 (buttons tk)) tk) Hin) as [title ->].
  exists title. by rewrite detail_window_eq.
Qed.

(** X14 (open_system): a window is opened on every click; nothing checks
    for one that is open already.  Releasing the same button twice leaves
    two windows of its system, under consecutive numbers, beside all that
    were open before. *)
Theorem second_click_opens_second_window (events : list Event) (i : nat)
    (b : ModernButton) (cls : WindowClass) :
  let tk := mainloop events gui_main in
  let tk2 := handle (ButtonRelease i) (handle (ButtonRelease i) tk) in
  running tk = true →
  buttons tk !! i = Some b →
  (text b, cls) ∈ system_windows →
  (∃ t1 t2,
     toplevels tk2 !! next_id tk = Some t1 ∧ tl_class t1 = Some cls ∧
     toplevels tk2 !! S (next_id tk) = Some t2 ∧ tl_class t2 = Some cls) ∧
  (∀ w t, toplevels tk !! w = Some t → toplevels tk2 !! w = Some t) ∧
  next_id tk2 = S (S (next_id tk)).
Proof.
  cbv zeta. intros Hrun Hb Hin.
  pose proof (gui_inv_mainloop events _ gui_inv_gui_main) as Hinv.
  generalize dependent (mainloop events gui_main). intros tk Hrun Hb Hinv.
  assert (i < length (buttons tk)) as Hi by by eapply lookup_lt_Some.
  pose proof (gui_inv_handle (ButtonRelease i) tk Hinv) as Hinv1.
  destruct (handle_release_known i b cls tk Hinv Hrun Hb Hin) as [title H1].
  rewrite H1 in Hinv1 |- *.
  edestruct (handle_release_known i (update_color (hover_color b) b) cls)
    as [title' ->]; [exact Hinv1|done|..].
  { simpl. by apply list_lookup_insert_eq. }
  { done. }
  simpl. destruct (inv_fresh _ Hinv) as [_ Hfresh].
  split_and!.
  - eexists _, _. split_and!.
    + rewrite lookup_insert_ne by lia. apply lookup_insert_eq.
    + done.
    + apply lookup_insert_eq.
    + done.
  - intros w t Hw. assert (w < next_id tk) by eauto.
    rewrite !lookup_insert_ne by lia. done.
  - done.
Qed.

(** ** The pointer over a button

    [ModernButton] is a [tk.Canvas]: beside the attributes of the button,
    its handlers set the [cursor] option of the canvas. *)
Record Canvas := {
  button : ModernButton;
  cursor : string
}.

(** [ModernButton.on_enter], [on_leave] and [on_click]. *)
Definition on_enter (c : Canvas) : Canvas :=
  {| button := update_color (hover_color (button c)) (button c);
     cursor := "hand2" |}.
Definition on_leave (c : Canvas) : Canvas :=
  {| button := update_color (bg_color (button c)) (button c);
     cursor := "" |}.
Definition on_click (c : Canvas) : Canvas :=
  {| button := update_color (active_color (button c)) (button c);
     cursor := cursor c |}.

(** The pointer entering, leaving or pressing the button. *)
Inductive Pointer := Enter | Leave | Press.

Definition pointer (ev : Pointer) : Canvas → Canvas :=
  match ev with
  | Enter => on_enter
  | Leave => on_leave
  | Press => on_click
  end.

Definition pointers (evs : list Pointer) (c : Canvas) : Canvas :=
  foldl (λ c ev, pointer ev c) c evs.

(** The colour an event gives the button. *)
Definition colour_after (ev : Pointer) (b : ModernButton) : string :=
  match ev with
  | Enter => hover_color b
  | Leave => bg_color b
  | Press => active_color b
  end.

(** The events that set the cursor. *)
Definition crosses (ev : Pointer) : bool :=
  match ev with
  | Enter | Leave => true
  | Press => false
  end.

(** X15 (on_enter, on_leave, on_click, update_color): pointer events
    recolour the button and set the cursor, and nothing else.  After any
    run of them the button has its text, emoji, command, colours to choose
    from, border and grid cell as before; its current colour is the one
    given by the last event (hover after entering, background after
    leaving, active after a press); the cursor is the hand when the
    pointer last entered, the default when it last left, a press in
    between changing nothing of it. *)
Theorem pointer_events_recolour_and_set_cursor (evs : list Pointer)
    (c : Canvas) :
  let c' := pointers evs c in
  let b := button c in
  button c' =
    match last evs with
    | Some ev =>
        {| text := text b; emoji := emoji b; command := command b;
           bg_color := bg_color b; hover_color := hover_color b;
           active_color := active_color b;
           current_color := colour_after ev b;
           border := border b; grid_row := grid_row b;
           grid_column := grid_column b |}
    | None => b
    end ∧
  cursor c' =
    match last (filter (λ ev, crosses ev = true) evs) with
    | Some Enter => "hand2"
    | Some _ => ""
    | None => cursor c
    end.
Proof.
  cbv zeta. induction evs as [|ev evs IH] using rev_ind; [done|].
  destruct IH as [Hb Hc].
  unfold pointers in *. rewrite foldl_app. simpl.
  rewrite last_snoc, filter_app, filter_cons, filter_nil. split.
  - destruct ev; simpl; rewrite Hb; by destruct (last evs) as [[]|].
  - destruct ev; simpl; rewrite ?last_snoc, ?app_nil_r; done.
Qed.

(** ** More on the rounded border *)
Lemma range_up_length (a b : Z) : length (range a b 1) = Z.to_nat (b - a).
Proof.
  unfold range. simpl. rewrite length_fmap, length_seq, Z.div_1_r.
  f_equal. lia.
Qed.

Lemma range_down_length (a b : Z) :
  length (range a b (-1)) = Z.to_nat (a - b).
Proof.
  unfold range. simpl. rewrite length_fmap, length_seq, Z.div_1_r.
  f_equal. lia.
Qed.

Lemma length_flat_points (points : list point) :
  length (points ≫= (λ p, [p.1; p.2])) = 2 * length points.
Proof.
  induction points as [|p points IH]; [done|].
  rewrite bind_cons, length_app, IH. simpl. lia.
Qed.

Lemma border_points_length (x1 y1 x2 y2 radius : Z) :
  length (border_points x1 y1 x2 y2 radius) =
  76 + 2 * Z.to_nat (x2 - x1 - 2 * radius + 1)
     + 2 * Z.to_nat (y2 - y1 - 2 * radius + 1).
Proof.
  unfold border_points, top_side, right_top_arc, right_side, right_bottom_arc,
    bottom_side, left_bottom_arc, left_side, left_top_arc.
  destruct arc_angles as (-> & -> & -> & ->).
  rewrite !length_app, !length_fmap, !length_seq,
    !range_up_length, !range_down_length.
  replace (x2 - radius + 1 - (x1 + radius))%Z
    with (x2 - x1 - 2 * radius + 1)%Z by lia.
  replace (x2 - radius - (x1 + radius - 1))%Z
    with (x2 - x1 - 2 * radius + 1)%Z by lia.
  replace (y2 - radius + 1 - (y1 + radius))%Z
    with (y2 - y1 - 2 * radius + 1)%Z by lia.
  replace (y2 - radius - (y1 + radius - 1))%Z
    with (y2 - y1 - 2 * radius + 1)%Z by lia.
  lia.
Qed.

(** X17 (create_rounded_rect_border): the test [len(points) > 2] never
    fails.  Whatever the rectangle and the radius, also when the rectangle
    is too small for its corners or inverted, the four arcs alone give 76
    points, a line is created, and it has two coordinates per point; each
    side adds one point per integer position between the corner circles,
    and none when they overlap. *)
Theorem create_rounded_rect_border_always_draws (x1 y1 x2 y2 radius : Z)
    (colour : string) (width : Z) :
  ∃ line,
    create_rounded_rect_border x1 y1 x2 y2 radius colour width = Some line ∧
    line_fill line = colour ∧ line_width line = width ∧
    length (line_coords line) =
      2 * length (border_points x1 y1 x2 y2 radius) ∧
    length (border_points x1 y1 x2 y2 radius) =
      76 + 2 * Z.to_nat (x2 - x1 - 2 * radius + 1)
         + 2 * Z.to_nat (y2 - y1 - 2 * radius + 1).
Proof.
  unfold create_rounded_rect_border.
  pose proof (border_points_length x1 y1 x2 y2 radius) as Hlen.
  rewrite decide_True by lia.
  eexists. split_and!; try done. simpl. apply length_flat_points.
Qed.

(** ** The filled shape of a button

    [ModernButton.create_rounded_rect] fills the button with two
    rectangles and four ovals, all in the current colour, without outline
    and tagged ["rect"], before it draws the border. *)
Inductive Shape :=
  | Rectangle (xa ya xb yb : Z)
  | Oval (xa ya xb yb : Z).

Definition rounded_rect_shapes (x1 y1 x2 y2 radius : Z) : list Shape :=
  [Rectangle (x1 + radius) y1 (x2 - radius) y2;
   Rectangle x1 (y1 + radius) x2 (y2 - radius);
   Oval x1 y1 (x1 + radius * 2) (y1 + radius * 2);
   Oval (x2 - radius * 2) y1 x2 (y1 + radius * 2);
   Oval x1 (y2 - radius * 2) (x1 + radius * 2) y2;
   Oval (x2 - radius * 2) (y2 - radius * 2) x2 y2].

(** The shapes with the numbers the method fixes. *)
Definition create_rounded_rect : list Shape :=
  let '(x1, y1, x2, y2) := (10, 10, 440, 190)%Z in
  let radius := 24%Z in
  rounded_rect_shapes x1 y1 x2 y2 radius.

(** The points a filled canvas item covers: a rectangle its box, an oval
    the ellipse inscribed in its box. *)
Definition covers (s : Shape) (p : point) : Prop :=
  match s with
  | Rectangle xa ya xb yb =>
      (IZR xa <= p.1 <= IZR xb ∧ IZR ya <= p.2 <= IZR yb)%R
  | Oval xa ya xb yb =>
      let cx := ((IZR xa + IZR xb) / 2)%R in
      let cy := ((IZR ya + IZR yb) / 2)%R in
      let a := ((IZR xb - IZR xa) / 2)%R in
      let b := ((IZR yb - IZR ya) / 2)%R in
      ((p.1 - cx) * (p.1 - cx) * (b * b) + (p.2 - cy) * (p.2 - cy) * (a * a)
       <= a * a * (b * b))%R
  end.

(** The rounded rectangle as a region: the points within [radius] of the
    rectangle that the centres of the corner circles span. *)
Definition in_rounded_rect (x1 y1 x2 y2 radius : Z) (p : point) : Prop :=
  ∃ q : point,
    (IZR (x1 + radius) <= q.1 <= IZR (x2 - radius) ∧
     IZR (y1 + radius) <= q.2 <= IZR (y2 - radius) ∧
     (p.1 - q.1) * (p.1 - q.1) + (p.2 - q.2) * (p.2 - q.2)
     <= IZR radius * IZR radius)%R.

Lemma covers_circle (xa ya xb yb : Z) (cx cy r : R) (p : point) :
  (0 < r)%R →
  (IZR xa = cx - r)%R → (IZR xb = cx + r)%R →
  (IZR ya = cy - r)%R → (IZR yb = cy + r)%R →
  covers (Oval xa ya xb yb) p ↔
  ((p.1 - cx) * (p.1 - cx) + (p.2 - cy) * (p.2 - cy) <= r * r)%R.
Proof.
  intros Hr Hxa Hxb Hya Hyb. unfold covers. rewrite Hxa, Hxb, Hya, Hyb.
  replace ((cx - r + (cx + r)) / 2)%R with cx by lra.
  replace ((cy - r + (cy + r)) / 2)%R with cy by lra.
  replace ((cx + r - (cx - r)) / 2)%R with r by lra.
  replace ((cy + r - (cy - r)) / 2)%R with r by lra.
  assert (0 < r * r)%R as Hrr by nra.
  split; intros Hle.
  - apply (Rmult_le_reg_r (r * r)); [done|]. lra.
  - apply (Rmult_le_compat_r (r * r)) in Hle; [|lra]. lra.
Qed.

(** X19 (create_rounded_rect): the two rectangles and four ovals together
    cover the rounded rectangle and nothing else, provided the radius is
    positive and the rectangle is at least two radii wide and high (as
    with the button's own numbers). *)
Theorem fill_is_rounded_rect (x1 y1 x2 y2 radius : Z) (p : point) :
  (0 < radius)%Z →
  (2 * radius ≤ x2 - x1)%Z → (2 * radius ≤ y2 - y1)%Z →
  Exists (λ s, covers s p) (rounded_rect_shapes x1 y1 x2 y2 radius) ↔
  in_rounded_rect x1 y1 x2 y2 radius p.
Proof.
  intros Hr%IZR_lt Hw%IZR_le Hh%IZR_le.
  rewrite minus_IZR, mult_IZR in Hw, Hh.
  unfold rounded_rect_shapes, in_rounded_rect.
  rewrite !Exists_cons, Exists_nil.
  rewrite (covers_circle _ _ _ _ (IZR x1 + IZR radius) (IZR y1 + IZR radius)
             (IZR radius))
    by (rewrite ?plus_IZR, ?minus_IZR, ?mult_IZR; lra).
  rewrite (covers_circle _ _ _ _ (IZR x2 - IZR radius) (IZR y1 + IZR radius)
             (IZR radius))
    by (rewrite ?plus_IZR, ?minus_IZR, ?mult_IZR; lra).
  rewrite (covers_circle _ _ _ _ (IZR x1 + IZR radius) (IZR y2 - IZR radius)
             (IZR radius))
    by (rewrite ?plus_IZR, ?minus_IZR, ?mult_IZR; lra).
  rewrite (covers_circle _ _ _ _ (IZR x2 - IZR radius) (IZR y2 - IZR radius)
             (IZR radius))
    by (rewrite ?plus_IZR, ?minus_IZR, ?mult_IZR; lra).
  unfold covers. rewrite !plus_IZR, !minus_IZR.
  destruct p as [px py]. simpl.
  set (X1 := IZR x1) in *. set (Y1 := IZR y1) in *.
  set (X2 := IZR x2) in *. set (Y2 := IZR y2) in *.
  set (r := IZR radius) in *. clearbody X1 Y1 X2 Y2 r.
  split.
  - intros [HA|[HB|[H1|[H2|[H3|[H4|[]]]]]]].
    + destruct (Rle_lt_dec py (Y1 + r)), (Rle_lt_dec (Y2 - r) py).
      * exists (px, Y1 + r)%R. simpl. split_and!; try lra. nra.
      * exists (px, Y1 + r)%R. simpl. split_and!; try lra. nra.
      * exists (px, Y2 - r)%R. simpl. split_and!; try lra. nra.
      * exists (px, py). simpl. split_and!; try lra. nra.
    + destruct (Rle_lt_dec px (X1 + r)), (Rle_lt_dec (X2 - r) px).
      * exists (X1 + r, py)%R. simpl. split_and!; try lra. nra.
      * exists (X1 + r, py)%R. simpl. split_and!; try lra. nra.
      * exists (X2 - r, py)%R. simpl. split_and!; try lra. nra.
      * exists (px, py). simpl. split_and!; try lra. nra.
    + exists (X1 + r, Y1 + r)%R. simpl. split_and!; lra.
    + exists (X2 - r, Y1 + r)%R. simpl. split_and!; lra.
    + exists (X1 + r, Y2 - r)%R. simpl. split_and!; lra.
    + exists (X2 - r, Y2 - r)%R. simpl. split_and!; lra.
  - intros ([qx qy] & Hqx & Hqy & Hd). simpl in *.
    pose proof (Rle_0_sqr (px - qx)) as Hsx.
    pose proof (Rle_0_sqr (py - qy)) as Hsy. unfold Rsqr in Hsx, Hsy.
    assert ((px - qx) * (px - qx) <= r * r)%R as Hdx by lra.
    assert ((py - qy) * (py - qy) <= r * r)%R as Hdy by lra.
    assert (-r <= px - qx <= r)%R.
    { split; [apply Rsqr_neg_pos_le_0|apply Rsqr_incr_0_var];
        unfold Rsqr; lra. }
    assert (-r <= py - qy <= r)%R.
    { split; [apply Rsqr_neg_pos_le_0|apply Rsqr_incr_0_var];
        unfold Rsqr; lra. }
    destruct (Rle_lt_dec (X1 + r) px), (Rle_lt_dec px (X2 - r)).
    + left. lra.
    + destruct (Rle_lt_dec (Y1 + r) py), (Rle_lt_dec py (Y2 - r)).
      * right; left. lra.
      * do 5 right; left. nra.
      * do 3 right; left. nra.
      * lra.
    + destruct (Rle_lt_dec (Y1 + r) py), (Rle_lt_dec py (Y2 - r)).
      * right; left. lra.
      * do 4 right; left. nra.
      * do 2 right; left. nra.
      * lra.
    + lra.
Qed.

(** ** The grid of buttons *)

(** The loop of [create_widgets] over a list of systems. *)
Definition add_buttons (l : list System) (start : nat) (tk : Tk) : Tk :=
  foldl (λ tk '(i, system),
           let row := i `div` 2 in
           let col := i `mod` 2 in
           let button := ModernButton_init (sys_text system)
                           (sys_emoji system) (Some (sys_command system)) in
           set_buttons (buttons tk ++ [grid row col button]) tk)
    tk (enumerate start l).

Lemma create_widgets_add_buttons (tk : Tk) :
  create_widgets tk = add_buttons systems 0 tk.
Proof. reflexivity. Qed.

Lemma add_buttons_buttons (l : list System) (start : nat) (tk : Tk) :
  buttons (add_buttons l start tk) =
  buttons tk ++
  imap (λ i system,
          grid ((start + i) `div` 2) ((start + i) `mod` 2)
            (ModernButton_init (sys_text system) (sys_emoji system)
               (Some (sys_command system)))) l.
Proof.
  unfold add_buttons. revert start tk.
  induction l as [|s l IH]; intros start tk.
  - by rewrite app_nil_r.
  - rewrite enumerate_cons. cbn [foldl]. rewrite IH.
    cbn [buttons set_buttons]. rewrite <-app_assoc, imap_cons.
    rewrite Nat.add_0_r. f_equal. cbn [app]. f_equal.
    apply imap_ext. intros i x _. unfold compose.
    by replace (S start + i) with (start + S i) by lia.
Qed.

(** X16 (create_widgets): the loop lays the buttons out row by row in two
    columns, in the order of the list of systems, each with the text and
    the command of its own entry; no two buttons share a cell, however
    many systems the list holds, and buttons already there are kept. *)
Theorem buttons_fill_a_two_column_grid (l : list System) (tk : Tk) :
  let tk' := add_buttons l 0 tk in
  create_widgets tk = add_buttons systems 0 tk ∧
  (∀ i b, buttons tk !! i = Some b → buttons tk' !! i = Some b) ∧
  (∀ i system, l !! i = Some system →
     ∃ b, buttons tk' !! (length (buttons tk) + i) = Some b ∧
          text b = sys_text system ∧
          command b = Some (sys_command system) ∧
          grid_row b = i `div` 2 ∧ grid_column b = i `mod` 2 ∧
          grid_column b < 2) ∧
  (∀ i j bi bj,
     buttons tk' !! (length (buttons tk) + i) = Some bi →
     buttons tk' !! (length (buttons tk) + j) = Some bj →
     grid_row bi = grid_row bj → grid_column bi = grid_column bj → i = j).
Proof.
  cbv zeta. split; [apply create_widgets_add_buttons|].
  rewrite add_buttons_buttons.
  assert (∀ i b,
    (buttons tk ++
       imap (λ i system,
               grid ((0 + i) `div` 2) ((0 + i) `mod` 2)
                 (ModernButton_init (sys_text system) (sys_emoji system)
                    (Some (sys_command system)))) l)
      !! (length (buttons tk) + i) = Some b →
    ∃ system, l !! i = Some system ∧
      b = grid (i `div` 2) (i `mod` 2)
            (ModernButton_init (sys_text system) (sys_emoji system)
               (Some (sys_command system)))) as Hnew.
  { intros i b. rewrite lookup_app_r by lia.
    replace (length (buttons tk) + i - length (buttons tk)) with i by lia.
    rewrite list_lookup_imap. destruct (l !! i) as [s|]; [|done].
    intros [= <-]. eauto. }
  split_and!.
  - intros i b Hb. by apply lookup_app_l_Some.
  - intros i system Hi. eexists. split.
    { rewrite lookup_app_r by lia.
      replace (length (buttons tk) + i - length (buttons tk)) with i by lia.
      rewrite list_lookup_imap, Hi. reflexivity. }
    cbn [grid ModernButton_init text command grid_row grid_column].
    split_and!; try reflexivity. apply Nat.mod_upper_bound. lia.
  - intros i j bi bj (si & _ & ->)%Hnew (sj & _ & ->)%Hnew.
    cbn [grid grid_row grid_column]. intros Hrow Hcol.
    rewrite (Nat.div_mod i 2), (Nat.div_mod j 2) by lia. lia.
Qed.

(** ** The further properties on the small instance *)
Module demo_windows_more.
(** The directory of [demo_windows.fs] enumerated in another order, with
    another file that is no mesh. *)
Definition fs_with_readme : gmap Path node :=
  {[ [OBJ_FOLDER] :=
       Dir ["readme.md"; "Valve.Obj"; "scans.obj"; "Aorta.OBJ"; "septum.obj"];
     [OBJ_FOLDER; "readme.md"] := File;
     [OBJ_FOLDER; "Valve.Obj"] := File;
     [OBJ_FOLDER; "scans.obj"] := Dir ["slice.png"];
     [OBJ_FOLDER; "Aorta.OBJ"] := File;
     [OBJ_FOLDER; "septum.obj"] := File ]}.
End demo_windows_more.

Lemma load_obj_files_other_entries_witness :
  @load_obj_files_on demo_windows.platform (list string) _ demo.to_path
    demo_windows.fs OBJ_FOLDER [] =
  @load_obj_files_on demo_windows.platform (list string) _ demo.to_path
    demo_windows_more.fs_with_readme OBJ_FOLDER [].
Proof.
  apply (@load_obj_files_other_entries demo_windows.platform (list string) _
           demo.to_path demo_windows.fs demo_windows_more.fs_with_readme
           OBJ_FOLDER
           ["septum.obj"; "Aorta.OBJ"; "notes.txt"; "scans.obj"; "Valve.Obj"]
           ["readme.md"; "Valve.Obj"; "scans.obj"; "Aorta.OBJ"; "septum.obj"]).
  - by vm_compute.
  - by vm_compute.
  - apply (bool_decide_unpack _). by vm_compute.
  - apply (bool_decide_unpack _). by vm_compute.
  - intros m n Hm Hn.
    repeat (apply elem_of_cons in Hm as [->|Hm]);
      [..|by apply elem_of_nil in Hm];
      (repeat (apply elem_of_cons in Hn as [->|Hn]);
        [..|by apply elem_of_nil in Hn]); by vm_compute.
  - intros n Hobj%compile_pattern_obj.
    rewrite !elem_of_cons, !elem_of_nil. split.
    + intros [->|[->|[->|[->|[->|[]]]]]]; try tauto. by vm_compute in Hobj.
    + intros [->|[->|[->|[->|[->|[]]]]]]; try tauto. by vm_compute in Hobj.
Defined.

Lemma load_obj_files_index_is_rank_witness :
  3 = length
        (filter (λ m, lexico (@casefold demo_windows.platform m)
                        (@casefold demo_windows.platform "Valve.Obj") ∧
                      @compile_pattern demo_windows.platform "*.obj" m = true)
           ["septum.obj"; "Aorta.OBJ"; "notes.txt"; "scans.obj"; "Valve.Obj"]).
Proof.
  apply (@load_obj_files_index_is_rank demo_windows.platform (list string) _
           demo.to_path demo_windows.fs OBJ_FOLDER
           ["septum.obj"; "Aorta.OBJ"; "notes.txt"; "scans.obj"; "Valve.Obj"]
           []
           (@load_obj_files_on demo_windows.platform (list string) _
              demo.to_path demo_windows.fs OBJ_FOLDER []).2
           demo_windows.obj_files 3 "Valve.Obj").
  - by vm_compute.
  - apply (bool_decide_unpack _). by vm_compute.
  - intros m n Hm Hn.
    repeat (apply elem_of_cons in Hm as [->|Hm]);
      [..|by apply elem_of_nil in Hm];
      (repeat (apply elem_of_cons in Hn as [->|Hn]);
        [..|by apply elem_of_nil in Hn]); by vm_compute.
  - by vm_compute.
  - by vm_compute.
Defined.

Lemma load_obj_files_listing_witness :
  (@load_obj_files_on demo_windows.platform (list string) _ demo.to_path
     demo_windows.fs OBJ_FOLDER []).2 =
  [nl +:+ rule; "Found 4 .obj files:"; rule;
   "   1. Aorta.OBJ"; "   2. scans.obj"; "   3. septum.obj";
   "   4. Valve.Obj"; rule +:+ nl].
Proof.
  destruct (@load_obj_files_listing demo_windows.platform demo.to_path
              demo_windows.fs OBJ_FOLDER []
              (@load_obj_files_on demo_windows.platform (list string) _
                 demo.to_path demo_windows.fs OBJ_FOLDER []).2
              demo_windows.obj_files) as [Hout _]; [by vm_compute|].
  rewrite Hout. by vm_compute.
Defined.

Lemma scene_entry_of_file_witness :
  ∃ actor p,
    scene demo.built !! "septum.obj" = Some actor ∧
    actors demo.built !! 1 = Some actor ∧
    props demo.built !! actor = Some p ∧
    ALL_COLORS !! (2 `mod` 14) = Some (color_ p).
Proof.
  apply (@scene_entry_of_file demo.heart
           [[OBJ_FOLDER; "aorta.obj"]; [OBJ_FOLDER; "corrupt.obj"]] []
           [OBJ_FOLDER; "septum.obj"] "septum.obj" "septum.obj" demo.blank).
  - by vm_compute.
  - by vm_compute.
  - by vm_compute.
  - apply not_elem_of_nil.
Defined.

Lemma update_opacity_last_wins_witness :
  update_opacity [1; 0; 1] 0.5 (update_opacity [0; 1] 0.2 (props demo.built))
  = update_opacity [0; 1] 0.5 (props demo.built).
Proof.
  apply update_opacity_last_wins.
  intros actor. rewrite !elem_of_cons, !elem_of_nil. tauto.
Defined.

Lemma slider_keeps_parts_visible_witness :
  actors (slides [0.05; 2; 0.4]%Q demo.built) = actors demo.built.
Proof.
  destruct (slider_keeps_parts_visible demo.obj_files demo.blank demo.built
              [0.05; 2; 0.4]%Q) as (Ha & _); [by vm_compute|].
  exact Ha.
Defined.

Lemma only_escape_is_bound_witness :
  key_press 1 "<Return>" (mainloop [ButtonRelease 0] gui_main) =
  mainloop [ButtonRelease 0] gui_main.
Proof. by apply only_escape_is_bound. Defined.

Lemma second_click_opens_second_window_witness :
  next_id (handle (ButtonRelease 3)
             (handle (ButtonRelease 3) (mainloop [ButtonRelease 0] gui_main)))
  = S (S (next_id (mainloop [ButtonRelease 0] gui_main))).
Proof.
  eapply (λ b H1 H2 H3,
    proj2 (proj2 (second_click_opens_second_window [ButtonRelease 0] 3 b
                    DentalWindow H1 H2 H3))).
  - reflexivity.
  - reflexivity.
  - unfold system_windows. rewrite !elem_of_cons. do 3 right. left.
    reflexivity.
Defined.

Lemma fill_is_rounded_rect_witness :
  Exists (λ s, covers s (12, 12)%R) create_rounded_rect ↔
  in_rounded_rect 10 10 440 190 24 (12, 12)%R.
Proof. apply (fill_is_rounded_rect 10 10 440 190 24); lia. Defined.
